(** * VGC_simulation.cpp: the Virtual Garbage Collector, embedded and verified

    A shallow embedding of [VGC_Manager] (src/VGC_simulation.cpp): the object
    descriptor, the liveness equation, the heap registry, the state-transition
    API and the sweep protocol with its pre/post hooks.

    Conventions.
    - [uint8_t] values are [Z] in [0, 256); the one place where the source
      narrows an [int] back to [uint8_t] is written [to_u8].
    - [uint32_t] ids are [N]; they are only compared and printed.
    - [size_t] counts are [nat] (they are container sizes).
    - [std::unordered_map<uint32_t, VGC_Object>] is [gmap N VGC_Object].
    - [std::cout] and [std::cerr] are the text written so far.
    - a [std::function] callback is a function on the environment it can
      reach (heap and the two streams) that either returns or throws.
      Callbacks that register further callbacks or re-enter [sweep] while a
      sweep is running are not covered. *)

From Stdlib Require Import ZArith String Ascii List Lia.
From stdpp Require Import base decidable option list gmap fin_maps strings pretty.

Local Open Scope string_scope.
Local Open Scope Z_scope.

(** ** State and zone encodings *)

Inductive VGC_State : Set :=
  | IDLE | ACTIVE | PROMOTE | DEMOTE | PERSIST | DEFERRED | MARKED | EXPIRED.

Inductive MemoryZone : Set :=
  | RED | GREEN | BLUE.

(** [static_cast<uint8_t>(s)] for a named enumerator. *)
Definition state_code (s : VGC_State) : Z :=
  match s with
  | IDLE => 0 | ACTIVE => 1 | PROMOTE => 2 | DEMOTE => 3
  | PERSIST => 4 | DEFERRED => 5 | MARKED => 6 | EXPIRED => 7
  end.

Definition zone_code (z : MemoryZone) : Z :=
  match z with
  | RED => 1 | GREEN => 2 | BLUE => 4
  end.

(** Range of a [uint8_t], and the narrowing conversion from [int]. *)
Definition is_u8 (x : Z) : Prop := 0 <= x < 256.
Definition to_u8 (x : Z) : Z := x mod 256.

(** ** Object descriptor *)

Record VGC_Object : Set := mkObject {
  id : N;
  zone_mask : Z;
  state : Z
}.

Definition object_wf (o : VGC_Object) : Prop :=
  is_u8 (zone_mask o) /\ is_u8 (state o).

Definition state_name (o : VGC_Object) : string :=
  match state o with
  | 0 => "IDLE"
  | 1 => "ACTIVE"
  | 2 => "PROMOTE"
  | 3 => "DEMOTE"
  | 4 => "PERSIST"
  | 5 => "DEFERRED"
  | 6 => "MARKED"
  | 7 => "EXPIRED"
  | _ => "UNKNOWN"
  end.

Definition zone_name (o : VGC_Object) : string :=
  match zone_mask o with
  | 1 => "RED"
  | 2 => "GREEN"
  | 4 => "BLUE"
  | _ => "MIXED_ZONE"
  end.

(** ** Liveness evaluator *)

(** [evaluate_liveness(obj, pending_mask)]: the operands of [&] and [|] are
    promoted to [int]; the result is narrowed into [uint8_t liveness_score]. *)
Definition evaluate_liveness (obj : VGC_Object) (pending_mask : Z) : bool :=
  let current_state := state obj in
  let zone_mask := zone_mask obj in
  let pending_ops := pending_mask in
  if current_state =? state_code EXPIRED then false
  else if current_state =? state_code PERSIST then true
  else
    let liveness_score :=
      to_u8 (Z.lor (Z.land current_state zone_mask)
                   (Z.land current_state pending_ops)) in
    (0 <? liveness_score) || (current_state =? state_code ACTIVE).

(** ** Environment, hooks and manager *)

(** What a callback can reach: the registry (through a captured manager)
    and the two output streams. *)
Record Env : Type := mkEnv {
  heap : gmap N VGC_Object;
  cout : string;
  cerr : string
}.

(** A call either returns or leaves by an exception; both carry the
    environment as the call left it. *)
Inductive Outcome (A : Type) : Type :=
  | Returned (a : A)
  | Threw (a : A).
Arguments Returned {A} a.
Arguments Threw {A} a.

Definition outcome_state {A} (o : Outcome A) : A :=
  match o with Returned a => a | Threw a => a end.

Definition bind {A} (o : Outcome A) (k : A -> Outcome A) : Outcome A :=
  match o with
  | Returned a => k a
  | Threw a => Threw a
  end.

Notation "x <- c1 ;; c2" := (bind c1 (fun x => c2))
  (at level 100, c1 at next level, right associativity).

(** [std::function<void()>] and [std::function<void(size_t)>]. *)
Definition PreHook : Type := Env -> Outcome Env.
Definition PostHook : Type := nat -> Env -> Outcome Env.

(** Ghost record of one callback invocation: the position of the callback in
    its list, and for a post-sweep callback the argument it was given and
    the registry as it stood when the call was made. *)
Inductive HookCall : Type :=
  | PreCall (k : nat)
  | PostCall (k : nat) (reclaimed_count : nat) (seen : gmap N VGC_Object).

Record VGC_Manager : Type := mkManager {
  env : Env;
  pre_sweep_callbacks : list PreHook;
  post_sweep_callbacks : list PostHook;
  calls : list HookCall  (* ghost: invocations so far, oldest first *)
}.

Definition mheap (m : VGC_Manager) : gmap N VGC_Object := heap (env m).

Definition set_env (m : VGC_Manager) (e : Env) : VGC_Manager :=
  mkManager e (pre_sweep_callbacks m) (post_sweep_callbacks m) (calls m).

Definition set_heap (m : VGC_Manager) (h : gmap N VGC_Object) : VGC_Manager :=
  set_env m (mkEnv h (cout (env m)) (cerr (env m))).

(** [std::cout << s] and [std::cerr << s]. *)
Definition print (m : VGC_Manager) (s : string) : VGC_Manager :=
  set_env m (mkEnv (mheap m) (cout (env m) +:+ s) (cerr (env m))).

Definition eprint (m : VGC_Manager) (s : string) : VGC_Manager :=
  set_env m (mkEnv (mheap m) (cout (env m)) (cerr (env m) +:+ s)).

Definition log_call (m : VGC_Manager) (c : HookCall) : VGC_Manager :=
  mkManager (env m) (pre_sweep_callbacks m) (post_sweep_callbacks m)
            (calls m ++ [c]).

Definition nl : string := String "010"%char EmptyString.

Definition new_manager : VGC_Manager :=
  mkManager (mkEnv ∅ EmptyString EmptyString) [] [] [].

(** ** Heap registry *)

Definition warning_text (i : N) : string :=
  "Warning: Object " +:+ pretty i +:+ " already exists. Overwriting." +:+ nl.

Definition allocate (m : VGC_Manager) (id : N) (zone : MemoryZone)
    (initial_state : VGC_State) : VGC_Manager :=
  let m1 :=
    match mheap m !! id with
    | Some _ => eprint m (warning_text id)
    | None => m
    end in
  let new_object := mkObject id (zone_code zone) (state_code initial_state) in
  let m2 := set_heap m1 (<[id := new_object]> (mheap m1)) in
  print m2 ("Allocated object " +:+ pretty id +:+ " in " +:+
            zone_name new_object +:+ " zone with state: " +:+
            state_name new_object +:+ nl).

Definition object_count (m : VGC_Manager) : nat := size (mheap m).

(** Every entry is filed under its own id; [allocate] and
    [transition_state] keep it so. *)
Definition heap_keyed (h : gmap N VGC_Object) : Prop :=
  forall k o, h !! k = Some o -> id o = k.

Definition register_pre_sweep_callback (m : VGC_Manager) (callback : PreHook)
    : VGC_Manager :=
  mkManager (env m) (pre_sweep_callbacks m ++ [callback])
            (post_sweep_callbacks m) (calls m).

Definition register_post_sweep_callback (m : VGC_Manager) (callback : PostHook)
    : VGC_Manager :=
  mkManager (env m) (pre_sweep_callbacks m)
            (post_sweep_callbacks m ++ [callback]) (calls m).

(** ** State transition API *)

Definition with_state (o : VGC_Object) (s : Z) : VGC_Object :=
  mkObject (id o) (zone_mask o) s.

Definition error_text (i : N) : string :=
  "Error: Cannot transition state. Object " +:+ pretty i +:+ " not found." +:+ nl.

Definition transition_state (m : VGC_Manager) (id : N) (new_state : VGC_State)
    : VGC_Manager :=
  match mheap m !! id with
  | Some obj =>
      let old_state := state obj in
      let obj' := with_state obj (state_code new_state) in
      let m1 := set_heap m (<[id := obj']> (mheap m)) in
      let temp := with_state obj' old_state in
      print m1 ("Object " +:+ pretty id +:+ " transitioned: " +:+
                state_name obj' +:+ " (was: " +:+ state_name temp +:+ ")" +:+ nl)
  | None => eprint m (error_text id)
  end.

(** ** Sweep engine *)

(** The loop over [pre_sweep_callbacks], from position [k] on.  An exception
    leaves the loop and the sweep. *)
Fixpoint run_pre_sweep (k : nat) (cbs : list PreHook) (m : VGC_Manager)
    : Outcome VGC_Manager :=
  match cbs with
  | [] => Returned m
  | callback :: rest =>
      let m1 := log_call m (PreCall k) in
      match callback (env m1) with
      | Returned e => run_pre_sweep (S k) rest (set_env m1 e)
      | Threw e => Threw (set_env m1 e)
      end
  end.

(** The loop over the registry that fills [objects_to_reclaim].  The
    iteration order of [std::unordered_map] is unspecified; [map_to_list]
    fixes one.  The order only shows in the order of the diagnostic lines. *)
Definition objects_to_reclaim (h : gmap N VGC_Object) (pending_mask : Z)
    : list N :=
  foldl (fun (acc : list N) '(id, obj) =>
           if negb (evaluate_liveness obj pending_mask)
           then (acc ++ [id])%list
           else acc)
        [] (map_to_list h).

(** [heap[id]]: [operator[]] value-initialises a missing entry. *)
Definition default_object : VGC_Object := mkObject 0%N 0 0.

Definition subscript (h : gmap N VGC_Object) (id : N)
    : gmap N VGC_Object * VGC_Object :=
  match h !! id with
  | Some obj => (h, obj)
  | None => (<[id := default_object]> h, default_object)
  end.

(** One turn of the reclamation loop. *)
Definition reclaim_one (m : VGC_Manager) (id : N) : VGC_Manager :=
  let '(h1, obj) := subscript (mheap m) id in
  let m1 := set_heap m h1 in
  let m2 := print m1 ("  • Object " +:+ pretty id +:+
                      " (Zone: " +:+ zone_name obj +:+
                      ", State: " +:+ state_name obj +:+ ")" +:+ nl) in
  set_heap m2 (delete id (mheap m2)).

Definition reclaim (m : VGC_Manager) (ids : list N) : VGC_Manager :=
  match ids with
  | [] => print m ("No objects eligible for reclamation." +:+ nl)
  | _ =>
      let m1 := print m ("Reclaiming " +:+ pretty (length ids) +:+
                         " object(s):" +:+ nl) in
      foldl reclaim_one m1 ids
  end.

(** The loop over [post_sweep_callbacks], from position [k] on. *)
Fixpoint run_post_sweep (k : nat) (cbs : list PostHook) (reclaimed : nat)
    (m : VGC_Manager) : Outcome VGC_Manager :=
  match cbs with
  | [] => Returned m
  | callback :: rest =>
      let m1 := log_call m (PostCall k reclaimed (mheap m)) in
      match callback reclaimed (env m1) with
      | Returned e => run_post_sweep (S k) rest reclaimed (set_env m1 e)
      | Threw e => Threw (set_env m1 e)
      end
  end.

Definition sweep (m : VGC_Manager) (pending_mask : Z) : Outcome VGC_Manager :=
  let m0 := print m (nl +:+ "--- Initiating VGC Collection Cycle ---" +:+ nl) in
  m1 <- run_pre_sweep 0 (pre_sweep_callbacks m0) m0 ;;
  let ids := objects_to_reclaim (mheap m1) pending_mask in
  let m2 := reclaim m1 ids in
  m3 <- run_post_sweep 0 (post_sweep_callbacks m2) (length ids) m2 ;;
  Returned (print m3 ("--- Collection Cycle Complete ---" +:+ nl)).

(** The descriptors of [h] that [evaluate_liveness] keeps under a mask. *)
Definition survivors (h : gmap N VGC_Object) (pending_mask : Z)
    : gmap N VGC_Object :=
  filter (fun kv : N * VGC_Object => evaluate_liveness kv.2 pending_mask = true) h.

(** ** Assumptions on hooks used by the sweep theorems *)

(** A callback observes but does not mutate the registry. *)
Definition pre_hook_observes (f : PreHook) : Prop :=
  forall e, heap (outcome_state (f e)) = heap e.

Definition post_hook_observes (f : PostHook) : Prop :=
  forall n e, heap (outcome_state (f n e)) = heap e.

Definition hooks_observe (m : VGC_Manager) : Prop :=
  Forall pre_hook_observes (pre_sweep_callbacks m) /\
  Forall post_hook_observes (post_sweep_callbacks m).

(** A callback never throws. *)
Definition pre_hook_returns (f : PreHook) : Prop :=
  forall e, exists e', f e = Returned e'.

Definition post_hook_returns (f : PostHook) : Prop :=
  forall n e, exists e', f n e = Returned e'.

Definition hooks_return (m : VGC_Manager) : Prop :=
  Forall pre_hook_returns (pre_sweep_callbacks m) /\
  Forall post_hook_returns (post_sweep_callbacks m).

(** The calls a sweep adds to the ghost record. *)
Definition new_calls (before after : VGC_Manager) : list HookCall :=
  drop (length (calls before)) (calls after).

(** ** What a sweep does to the environment, in the spec's words

    Follows the spec's words (4.5, phases 1 and 4: "invoke every registered
    callback in registration order", post-sweep callbacks "passing the count
    of reclaimed ids"), to be compared with the loops of [sweep]: the
    callbacks of a list are called one after the other, first registered
    first, each on the environment its predecessor left, the post-sweep ones
    all with the same count; a callback that throws ends the sequence. *)
Fixpoint invoke_pre_in_order (cbs : list PreHook) (e : Env) : Outcome Env :=
  match cbs with
  | [] => Returned e
  | callback :: rest =>
      match callback e with
      | Returned e' => invoke_pre_in_order rest e'
      | Threw e' => Threw e'
      end
  end.

Fixpoint invoke_post_in_order (cbs : list PostHook) (reclaimed_count : nat)
    (e : Env) : Outcome Env :=
  match cbs with
  | [] => Returned e
  | callback :: rest =>
      match callback reclaimed_count e with
      | Returned e' => invoke_post_in_order rest reclaimed_count e'
      | Threw e' => Threw e'
      end
  end.

(** The environment of an outcome. *)
Definition outcome_env (o : Outcome VGC_Manager) : Outcome Env :=
  match o with
  | Returned m => Returned (env m)
  | Threw m => Threw (env m)
  end.

(** An environment after one more piece of text on [std::cout]. *)
Definition env_print (e : Env) (s : string) : Env :=
  mkEnv (heap e) (cout e +:+ s) (cerr e).

(** The first and the last line a sweep prints. *)
Definition sweep_header : string :=
  nl +:+ "--- Initiating VGC Collection Cycle ---" +:+ nl.
Definition sweep_footer : string := "--- Collection Cycle Complete ---" +:+ nl.

(** The environment in which the pre-sweep callbacks start. *)
Definition sweep_start (m : VGC_Manager) : Env := env_print (env m) sweep_header.

(** The candidates selected, and the environment left by selection and
    reclamation, when the pre-sweep callbacks have left [e_pre]. *)
Definition selected (e_pre : Env) (pending_mask : Z) : list N :=
  objects_to_reclaim (heap e_pre) pending_mask.

Definition reclaimed_env (m : VGC_Manager) (e_pre : Env) (pending_mask : Z) : Env :=
  env (reclaim (set_env m e_pre) (selected e_pre pending_mask)).

(** ** The demonstration's two hooks and its first five allocations *)

Definition demo_pre_hook : PreHook := fun e =>
  Returned (mkEnv (heap e)
                  (cout e +:+ "[Pre-sweep] Pausing application threads..." +:+ nl)
                  (cerr e)).

Definition demo_post_hook : PostHook := fun reclaimed_count e =>
  Returned (mkEnv (heap e)
                  (cout e +:+ "[Post-sweep] Resuming application threads. " +:+
                   pretty reclaimed_count +:+ " objects reclaimed." +:+ nl)
                  (cerr e)).

Definition demo_manager : VGC_Manager :=
  let c0 := register_pre_sweep_callback new_manager demo_pre_hook in
  let c1 := register_post_sweep_callback c0 demo_post_hook in
  let c2 := allocate c1 101 GREEN ACTIVE in
  let c3 := allocate c2 102 RED MARKED in
  let c4 := allocate c3 103 BLUE PERSIST in
  let c5 := allocate c4 104 GREEN IDLE in
  allocate c5 105 RED ACTIVE.

(** The demonstration's manager after its first [sweep()]. *)
Definition demo_swept : VGC_Manager := outcome_state (sweep demo_manager 0).

(** A pre-sweep callback that throws without touching anything, and a
    manager that has it registered and holds one EXPIRED descriptor. *)
Definition throwing_pre_hook : PreHook := fun e => Threw e.

Definition throwing_manager : VGC_Manager :=
  allocate (register_pre_sweep_callback new_manager throwing_pre_hook)
           401 BLUE EXPIRED.

(** ** Default arguments *)

(** [allocate(id, zone)] and [sweep()]. *)
Definition allocate_default (m : VGC_Manager) (id : N) (zone : MemoryZone)
    : VGC_Manager :=
  allocate m id zone ACTIVE.

Definition sweep_default (m : VGC_Manager) : Outcome VGC_Manager := sweep m 0.

(** ** Reporting surface *)

Fixpoint spaces (n : nat) : string :=
  match n with
  | O => EmptyString
  | S k => String " "%char (spaces k)
  end.

(** [std::setw(w) << s] with the default fill and adjustment: padded on the
    left up to width [w], never cut. *)
Definition setw (w : nat) (s : string) : string :=
  spaces (w - String.length s) +:+ s.

(** The loop of [display_status] that fills [red_count], [green_count] and
    [blue_count]. *)
Definition count_zones (h : gmap N VGC_Object) : nat * nat * nat :=
  foldl (fun '(red_count, green_count, blue_count) '(_, obj) =>
           if zone_mask obj =? zone_code RED
           then (S red_count, green_count, blue_count)
           else if zone_mask obj =? zone_code GREEN
           then (red_count, S green_count, blue_count)
           else if zone_mask obj =? zone_code BLUE
           then (red_count, green_count, S blue_count)
           else (red_count, green_count, blue_count))
        (O, O, O) (map_to_list h).

(** One line of the detailed object list. *)
Definition status_row (id : N) (obj : VGC_Object) : string :=
  let is_alive := evaluate_liveness obj 0 in
  setw 6 (pretty id) +:+ " | " +:+
  setw 6 (zone_name obj) +:+ " | " +:+
  setw 10 (state_name obj) +:+ " | " +:+
  (if is_alive then "YES" else "NO") +:+ nl.

Definition display_status (m : VGC_Manager) : VGC_Manager :=
  let m1 := print m (nl +:+ "=== VGC Heap Status ===" +:+ nl) in
  let m2 := print m1 ("Total Managed Objects: " +:+
                      pretty (size (mheap m1)) +:+ nl) in
  if Nat.eqb (size (mheap m2)) 0
  then print m2 ("Heap is empty." +:+ nl)
  else
    let m3 := print m2 (nl +:+ "Zone Distribution:" +:+ nl) in
    let '(red_count, green_count, blue_count) := count_zones (mheap m3) in
    let m4 := print m3 ("  RED Zone (Short-lived):   " +:+
                        pretty red_count +:+ " objects" +:+ nl) in
    let m5 := print m4 ("  GREEN Zone (Medium-lived): " +:+
                        pretty green_count +:+ " objects" +:+ nl) in
    let m6 := print m5 ("  BLUE Zone (Long-lived):    " +:+
                        pretty blue_count +:+ " objects" +:+ nl) in
    let m7 := print m6 (nl +:+ "Detailed Object List:" +:+ nl) in
    let m8 := print m7 ("ID     | Zone   | State      | Alive?" +:+ nl) in
    let m9 := print m8 ("-------|--------|------------|--------" +:+ nl) in
    let m10 := foldl (fun acc '(id, obj) => print acc (status_row id obj))
                     m9 (map_to_list (mheap m9)) in
    print m10 ("======================================" +:+ nl).

(** ** Well-formed registries *)

(** A descriptor as [allocate] makes it: filed under its own id, with a
    one-hot zone mask and a 3-bit state. *)
Definition descriptor_valid (k : N) (o : VGC_Object) : Prop :=
  id o = k /\
  (zone_mask o = 1 \/ zone_mask o = 2 \/ zone_mask o = 4) /\
  0 <= state o <= 7.

Definition heap_valid (h : gmap N VGC_Object) : Prop :=
  forall k o, h !! k = Some o -> descriptor_valid k o.

(** ** Clients *)

(** [allocate] and [transition_state] as a caller can really call them.
    [MemoryZone] and [VGC_State] are [enum class ... : uint8_t]: every
    [uint8_t] value is a value of the type (through [static_cast]), and both
    functions store the cast value unchecked.  On the named enumerators they
    are [allocate] and [transition_state]. *)
Definition allocate_cast (m : VGC_Manager) (id : N) (zone initial_state : Z)
    : VGC_Manager :=
  let m1 :=
    match mheap m !! id with
    | Some _ => eprint m (warning_text id)
    | None => m
    end in
  let new_object := mkObject id zone initial_state in
  let m2 := set_heap m1 (<[id := new_object]> (mheap m1)) in
  print m2 ("Allocated object " +:+ pretty id +:+ " in " +:+
            zone_name new_object +:+ " zone with state: " +:+
            state_name new_object +:+ nl).

Definition transition_state_cast (m : VGC_Manager) (id : N) (new_state : Z)
    : VGC_Manager :=
  match mheap m !! id with
  | Some obj =>
      let old_state := state obj in
      let obj' := with_state obj new_state in
      let m1 := set_heap m (<[id := obj']> (mheap m)) in
      let temp := with_state obj' old_state in
      print m1 ("Object " +:+ pretty id +:+ " transitioned: " +:+
                state_name obj' +:+ " (was: " +:+ state_name temp +:+ ")" +:+ nl)
  | None => eprint m (error_text id)
  end.

(** One call of a public member function of [VGC_Manager]; zone and state
    arguments are the [uint8_t] values of the enum-class arguments. *)
Inductive Call : Type :=
  | CallAllocate (id : N) (zone : Z) (initial_state : Z)
  | CallTransition (id : N) (new_state : Z)
  | CallSweep (pending_mask : Z)
  | CallDisplay
  | CallRegisterPre (callback : PreHook)
  | CallRegisterPost (callback : PostHook).

(** The manager after the call; for a sweep, as the call left it, whether it
    returned or threw. *)
Definition perform (m : VGC_Manager) (c : Call) : VGC_Manager :=
  match c with
  | CallAllocate id zone initial_state => allocate_cast m id zone initial_state
  | CallTransition id new_state => transition_state_cast m id new_state
  | CallSweep pending_mask => outcome_state (sweep m pending_mask)
  | CallDisplay => display_status m
  | CallRegisterPre callback => register_pre_sweep_callback m callback
  | CallRegisterPost callback => register_post_sweep_callback m callback
  end.

(** A client that starts from a fresh manager and makes the calls in order. *)
Definition session (cs : list Call) : VGC_Manager := foldl perform new_manager cs.

(** The callbacks a client registers only observe the registry. *)
Definition call_observes (c : Call) : Prop :=
  match c with
  | CallRegisterPre callback => pre_hook_observes callback
  | CallRegisterPost callback => post_hook_observes callback
  | _ => True
  end.

(** The zone and state arguments of a call are named enumerators. *)
Definition call_named (c : Call) : Prop :=
  match c with
  | CallAllocate _ zone initial_state =>
      (exists z, zone = zone_code z) /\ (exists s, initial_state = state_code s)
  | CallTransition _ new_state => exists s, new_state = state_code s
  | _ => True
  end.

(** A post-sweep callback that throws without touching anything. *)
Definition throwing_post_hook : PostHook := fun _ e => Threw e.

(** The calls of the demonstration's [main], in order. *)
Definition demo_calls : list Call :=
  [ CallRegisterPre demo_pre_hook;
    CallRegisterPost demo_post_hook;
    CallAllocate 101 (zone_code GREEN) (state_code ACTIVE);
    CallAllocate 102 (zone_code RED) (state_code MARKED);
    CallAllocate 103 (zone_code BLUE) (state_code PERSIST);
    CallAllocate 104 (zone_code GREEN) (state_code IDLE);
    CallAllocate 105 (zone_code RED) (state_code ACTIVE);
    CallDisplay;
    CallTransition 102 (state_code EXPIRED);
    CallTransition 104 (state_code ACTIVE);
    CallTransition 105 (state_code DEMOTE);
    CallDisplay;
    CallSweep 0;
    CallDisplay;
    CallAllocate 106 (zone_code GREEN) (state_code ACTIVE);
    CallAllocate 107 (zone_code RED) (state_code ACTIVE);
    CallSweep 3;
    CallDisplay ].

(** * The checksum kernels of the benchmarks

    The pure kernels of src/200kshortchecksum.cpp (a counting loop) and of
    src/20krecusionsc.cpp, src/4kDeepRecursion.cpp and
    src/16kDeepRecursion.cpp (an accumulator recursion and its chunking
    driver; the three files differ in two constants).  Timing, memory
    counters and thread pinning are not modelled.

    Integer types are those of the sources' target (g++, Windows x64):
    [short] is 16 bits, [int] 32 bits, [size_t] 64 bits.  A value converted
    to [short] is reduced modulo 2^16 ([to_short]); unsigned arithmetic wraps;
    signed [int] overflow is undefined behaviour ([Undefined]). *)

Definition to_short (x : Z) : Z := (x + 32768) mod 65536 - 32768.

Definition size_t_wrap (x : Z) : Z := x mod 2 ^ 64.

Definition int_ok (x : Z) : bool := (-2147483648 <=? x) && (x <=? 2147483647).

(** The sum of [f] over [n] consecutive integers from [start]. *)
Fixpoint sum_from (f : Z -> Z) (start : Z) (n : nat) : Z :=
  match n with
  | O => 0
  | S k => f start + sum_from f (start + 1) k
  end.

(** ** src/200kshortchecksum.cpp *)

(** The body of the [for] loop of [loop_chunk], [n] turns from index [i]. *)
Fixpoint loop_iter (n : nat) (i acc : Z) : Z :=
  match n with
  | O => acc
  | S k =>
      loop_iter k (i + 1)
                (to_short (acc + to_short (size_t_wrap (2 * i + 1) mod 32767)))
  end.

(** [loop_chunk(begin, end)]: the loop runs [end - begin] times when
    [begin < end] and not at all otherwise. *)
Definition loop_chunk (begin end_ : Z) : Z :=
  loop_iter (Z.to_nat (end_ - begin)) begin 0.

(** ** The accumulator recursion and its driver *)

(** How a run ends: with a value, in undefined behaviour, or not within the
    steps granted to it. *)
Inductive Run : Type :=
  | Done (v : Z)
  | Undefined
  | OutOfFuel.

Section Accumulator.

Variables (mul add : Z).

(** [(depth * mul + add) % 32767] in [int]; [%] truncates toward zero. *)
Definition step_term (depth : Z) : option Z :=
  if int_ok (depth * mul) && int_ok (depth * mul + add)
  then Some (Z.rem (depth * mul + add) 32767)
  else None.

(** [f(depth, limit, acc)]: returns [acc] at [depth == limit], otherwise
    calls itself with [depth + 1] and the sum, converted to the [short]
    parameter. *)
Fixpoint accumulate (fuel : nat) (depth limit acc : Z) : Run :=
  if depth =? limit then Done acc
  else
    match fuel with
    | O => OutOfFuel
    | S fuel' =>
        match step_term depth with
        | None => Undefined
        | Some t =>
            if int_ok (depth + 1)
            then accumulate fuel' (depth + 1) limit (to_short (acc + to_short t))
            else Undefined
        end
    end.

(** The [while (done < total_steps)] loop of the driver, entered with the
    current [acc] and [done]. *)
Fixpoint drive (fuel : nat) (total_steps chunk acc done : Z) : Run :=
  if done <? total_steps then
    match fuel with
    | O => OutOfFuel
    | S fuel' =>
        match accumulate fuel 0 chunk 0 with
        | Done r =>
            if int_ok (done + chunk)
            then drive fuel' total_steps chunk (to_short (acc + r)) (done + chunk)
            else Undefined
        | Undefined => Undefined
        | OutOfFuel => OutOfFuel
        end
    end
  else Done acc.

End Accumulator.

(** ** src/20krecusionsc.cpp *)
Module Rec20k.
Definition recursive_chunk : nat -> Z -> Z -> Z -> Run := accumulate 3 1.
Definition recursive_driver (fuel : nat) (total_steps chunk_size : Z) : Run :=
  drive 3 1 fuel total_steps chunk_size 0 0.
End Rec20k.

(** ** src/4kDeepRecursion.cpp *)
Module Deep4k.
Definition deep_recurse : nat -> Z -> Z -> Z -> Run := accumulate 7 3.
Definition deep_driver (fuel : nat) (total_steps chunk_depth : Z) : Run :=
  drive 7 3 fuel total_steps chunk_depth 0 0.
End Deep4k.

(** ** src/16kDeepRecursion.cpp *)
Module Deep16k.
Definition deep_recurse : nat -> Z -> Z -> Z -> Run := accumulate 11 7.
Definition deep_driver (fuel : nat) (total_steps chunk_depth : Z) : Run :=
  drive 11 7 fuel total_steps chunk_depth 0 0.
End Deep16k.

(** * Properties *)

Local Close Scope string_scope.

(** ** Liveness evaluator *)

Section Liveness.

Lemma u8_land_255 (s : Z) : is_u8 s -> Z.land s 255 = s.
Proof.
  intros Hs. change 255 with (Z.ones 8).
  rewrite Z.land_ones by lia. apply Z.mod_small. exact Hs.
Qed.

(** The score fits a [uint8_t] before it is narrowed: narrowing is the
    identity on it. *)
Lemma liveness_score_narrow (s z p : Z) :
  is_u8 s ->
  to_u8 (Z.lor (Z.land s z) (Z.land s p)) = Z.lor (Z.land s z) (Z.land s p).
Proof.
  intros Hs. unfold to_u8.
  rewrite <- Z.land_lor_distr_r.
  rewrite <- (u8_land_255 s Hs) at 2.
  rewrite <- Z.land_assoc, (Z.land_comm 255), Z.land_assoc.
  change 255 with (Z.ones 8). rewrite Z.land_ones by lia. reflexivity.
Qed.

Lemma liveness_score_nonneg (s z p : Z) :
  is_u8 s -> 0 <= Z.lor (Z.land s z) (Z.land s p).
Proof.
  intros Hs. rewrite <- (liveness_score_narrow s z p Hs).
  unfold to_u8. apply Z.mod_pos_bound. lia.
Qed.

Lemma land_low3 (s p : Z) : 0 <= s <= 7 -> Z.land s (Z.land p 7) = Z.land s p.
Proof.
  intros Hs.
  assert (Hs7 : Z.land s 7 = s).
  { change 7 with (Z.ones 3). rewrite Z.land_ones by lia.
    apply Z.mod_small. lia. }
  rewrite (Z.land_comm p 7), Z.land_assoc, Hs7. reflexivity.
Qed.

End Liveness.

(** C1. For a descriptor with state [s] (any [uint8_t], in particular any
    3-bit value), zone mask [z] and pending mask [p]: [evaluate_liveness] is
    false when [s] is EXPIRED (7); otherwise true when [s] is PERSIST (4);
    otherwise true exactly when [(s AND z) OR (s AND p)] is nonzero or [s] is
    ACTIVE (1). *)
Theorem evaluate_liveness_decision (obj : VGC_Object) (p : Z) :
  is_u8 (state obj) ->
  let s := state obj in
  let z := zone_mask obj in
  (s = 7 -> evaluate_liveness obj p = false) /\
  (s <> 7 -> s = 4 -> evaluate_liveness obj p = true) /\
  (s <> 7 -> s <> 4 ->
     (evaluate_liveness obj p = true <->
      Z.lor (Z.land s z) (Z.land s p) <> 0 \/ s = 1)).
Proof.
  intros Hs s z. unfold evaluate_liveness. fold s z. cbn [state_code].
  split; [|split].
  - intros ->. reflexivity.
  - intros _ ->. reflexivity.
  - intros H7 H4.
    destruct (Z.eqb_spec s 7) as [|_]; [contradiction|].
    destruct (Z.eqb_spec s 4) as [|_]; [contradiction|].
    rewrite (liveness_score_narrow s z p Hs).
    pose proof (liveness_score_nonneg s z p Hs) as Hnn.
    rewrite orb_true_iff, Z.ltb_lt, Z.eqb_eq. lia.
Qed.

Lemma evaluate_liveness_decision_witness :
  is_u8 (state (mkObject 102 1 6)) /\
  (evaluate_liveness (mkObject 102 1 6) 0 = true <->
   Z.lor (Z.land 6 1) (Z.land 6 0) <> 0 \/ 6 = 1).
Proof.
  assert (Hs : is_u8 (state (mkObject 102 1 6))) by (unfold is_u8; simpl; lia).
  split; [exact Hs|].
  pose proof (evaluate_liveness_decision (mkObject 102 1 6) 0 Hs) as (_ & _ & H).
  apply H; simpl; lia.
Defined.

(** C7. For a descriptor whose state lies in [0,7] and any pending mask [p],
    the verdict under [p] equals the verdict under [p AND 0b111]: bits of
    the pending mask above the low three never change it. *)
Theorem evaluate_liveness_low3 (obj : VGC_Object) (p : Z) :
  0 <= state obj <= 7 ->
  evaluate_liveness obj p = evaluate_liveness obj (Z.land p 7).
Proof.
  intros Hs. unfold evaluate_liveness.
  rewrite (land_low3 (state obj) p Hs). reflexivity.
Qed.

Lemma evaluate_liveness_low3_witness :
  0 <= state (mkObject 7 2 5) <= 7 /\
  evaluate_liveness (mkObject 7 2 5) 250 =
  evaluate_liveness (mkObject 7 2 5) (Z.land 250 7).
Proof.
  split; [simpl; lia|].
  apply (evaluate_liveness_low3 (mkObject 7 2 5) 250). simpl; lia.
Defined.

(** C10. The verdict does not depend on the descriptor's id: two descriptors
    with the same state and zone mask get the same verdict under every
    pending mask, whatever their ids. *)
Theorem evaluate_liveness_id_independent (o1 o2 : VGC_Object) (p : Z) :
  state o1 = state o2 ->
  zone_mask o1 = zone_mask o2 ->
  evaluate_liveness o1 p = evaluate_liveness o2 p.
Proof.
  intros Hs Hz. unfold evaluate_liveness. rewrite Hs, Hz. reflexivity.
Qed.

Lemma evaluate_liveness_id_independent_witness :
  id (mkObject 1 2 6) <> id (mkObject 99 2 6) /\
  evaluate_liveness (mkObject 1 2 6) 3 = evaluate_liveness (mkObject 99 2 6) 3.
Proof.
  split; [simpl; discriminate|].
  apply (evaluate_liveness_id_independent (mkObject 1 2 6) (mkObject 99 2 6) 3);
    reflexivity.
Defined.

(** ** Heap registry and state transitions *)

Section Registry.

Implicit Types (m : VGC_Manager) (h : gmap N VGC_Object) (k : N).

Lemma mheap_print m s : mheap (print m s) = mheap m.
Proof. reflexivity. Qed.

Lemma mheap_eprint m s : mheap (eprint m s) = mheap m.
Proof. reflexivity. Qed.

Lemma mheap_set_heap m h : mheap (set_heap m h) = h.
Proof. reflexivity. Qed.

Lemma mheap_allocate m k zone st :
  mheap (allocate m k zone st) =
  <[k := mkObject k (zone_code zone) (state_code st)]> (mheap m).
Proof. unfold allocate. by destruct (mheap m !! k). Qed.

Lemma cerr_allocate m k zone st :
  cerr (env (allocate m k zone st)) =
  match mheap m !! k with
  | Some _ => cerr (env m) +:+ warning_text k
  | None => cerr (env m)
  end.
Proof. unfold allocate. by destruct (mheap m !! k). Qed.

(** A key present in a map labels exactly one of its entries. *)
Lemma entries_under_key h k (o : VGC_Object) :
  h !! k = Some o ->
  length (filter (fun kv : N * VGC_Object => kv.1 = k) (map_to_list h)) = 1%nat.
Proof.
  intros Hk.
  rewrite <- (insert_id h k o Hk), <- insert_delete_eq.
  rewrite map_to_list_insert by apply lookup_delete_eq.
  rewrite filter_cons_True by done. simpl. f_equal.
  apply length_zero_iff_nil, elem_of_nil_inv.
  intros [k' o'] [Heq Hin%elem_of_map_to_list]%list_elem_of_filter.
  simpl in Heq. subst k'. by rewrite lookup_delete_eq in Hin.
Qed.

Lemma filter_ext_elem {A} (P Q : A -> Prop)
    `{!forall x, Decision (P x)} `{!forall x, Decision (Q x)} (l : list A) :
  (forall x, x ∈ l -> (P x <-> Q x)) -> filter P l = filter Q l.
Proof.
induction l as [|a l IH]; intros Hpq; [done|].
rewrite !filter_cons.
assert (Ha : P a <-> Q a) by (apply Hpq; left).
rewrite IH by (intros x Hx; apply Hpq; by right).
destruct (decide (P a)), (decide (Q a)); tauto || done.
Qed.

Lemma heap_keyed_allocate m k zone st :
  heap_keyed (mheap m) -> heap_keyed (mheap (allocate m k zone st)).
Proof.
intros Hm k' o. rewrite mheap_allocate.
destruct (decide (k = k')) as [<-|Hne].
- rewrite lookup_insert_eq. by intros [= <-].
- rewrite lookup_insert_ne by done. apply Hm.
Qed.

Lemma heap_keyed_transition_state m k st :
  heap_keyed (mheap m) -> heap_keyed (mheap (transition_state m k st)).
Proof.
intros Hm k' o. unfold transition_state.
destruct (mheap m !! k) as [obj|] eqn:Hk; [|apply Hm].
rewrite mheap_print, mheap_set_heap.
destruct (decide (k = k')) as [<-|Hne].
- rewrite lookup_insert_eq. intros [= <-]. simpl. by apply Hm.
- rewrite lookup_insert_ne by done. apply Hm.
Qed.

End Registry.

(** C5. Calling [allocate(id, zone, state)] when [id] is already in the
    heap returns normally, appends one line to the error stream that begins
    with "Warning:", overwrites the entry, and leaves exactly one descriptor
    under [id], whose id, zone and state are the arguments of this call. *)
Theorem allocate_existing (m : VGC_Manager) (id0 : N) (zone : MemoryZone)
    (st : VGC_State) (old : VGC_Object) :
  mheap m !! id0 = Some old ->
  let m' := allocate m id0 zone st in
  cerr (env m') = cerr (env m) +:+ warning_text id0 /\
  String.prefix "Warning:"%string (warning_text id0) = true /\
  mheap m' !! id0 = Some (mkObject id0 (zone_code zone) (state_code st)) /\
  length (filter (fun kv : N * VGC_Object => kv.1 = id0)
                 (map_to_list (mheap m'))) = 1%nat /\
  (heap_keyed (mheap m) ->
   length (filter (fun kv : N * VGC_Object => id kv.2 = id0)
                  (map_to_list (mheap m'))) = 1%nat) /\
  object_count m' = object_count m.
Proof.
  intros Hold m'. subst m'.
  assert (Hnew : mheap (allocate m id0 zone st) !! id0 =
                 Some (mkObject id0 (zone_code zone) (state_code st))).
  { rewrite mheap_allocate. apply lookup_insert_eq. }
  pose proof (entries_under_key _ _ _ Hnew) as Hone.
  repeat split.
  - by rewrite cerr_allocate, Hold.
  - exact Hnew.
  - exact Hone.
  - intros Hkeyed. rewrite <- Hone. f_equal. apply filter_ext_elem.
    intros [k o] Hin%elem_of_map_to_list. simpl.
    apply (heap_keyed_allocate m id0 zone st Hkeyed) in Hin. by rewrite Hin.
  - unfold object_count. rewrite mheap_allocate.
    by apply map_size_insert_Some.
Qed.

Lemma allocate_existing_witness :
  mheap demo_manager !! 102%N = Some (mkObject 102 1 6) /\
  cerr (env (allocate demo_manager 102 BLUE PERSIST)) =
    cerr (env demo_manager) +:+ warning_text 102 /\
  mheap (allocate demo_manager 102 BLUE PERSIST) !! 102%N =
    Some (mkObject 102 4 4).
Proof.
  assert (H : mheap demo_manager !! 102%N = Some (mkObject 102 1 6))
    by (vm_compute; reflexivity).
  split; [exact H|].
  pose proof (allocate_existing demo_manager 102 BLUE PERSIST _ H)
    as (H1 & _ & H2 & _).
  split; [exact H1 | exact H2].
Defined.

(** C9. [allocate(id, zone, state)] leaves every entry under another id as
    it was; [object_count()] grows by exactly one when [id] was absent and is
    unchanged when [id] was present. *)
Theorem allocate_frame (m : VGC_Manager) (id0 : N) (zone : MemoryZone)
    (st : VGC_State) :
  let m' := allocate m id0 zone st in
  (forall k, k <> id0 -> mheap m' !! k = mheap m !! k) /\
  (mheap m !! id0 = None -> object_count m' = S (object_count m)) /\
  (is_Some (mheap m !! id0) -> object_count m' = object_count m).
Proof.
  intros m'. subst m'. unfold object_count. rewrite mheap_allocate.
  split; [|split].
  - intros k Hk. by apply lookup_insert_ne.
  - intros Hnone. by apply map_size_insert_None.
  - intros Hsome. by apply map_size_insert_Some.
Qed.

Lemma allocate_frame_witness :
  mheap (allocate demo_manager 106 GREEN ACTIVE) !! 101%N =
    mheap demo_manager !! 101%N /\
  object_count (allocate demo_manager 106 GREEN ACTIVE) =
    S (object_count demo_manager) /\
  object_count (allocate demo_manager 101 RED IDLE) = object_count demo_manager.
Proof.
  pose proof (allocate_frame demo_manager 106 GREEN ACTIVE) as (H1 & H2 & _).
  pose proof (allocate_frame demo_manager 101 RED IDLE) as (_ & _ & H3).
  split; [apply H1; discriminate|].
  split; [apply H2; vm_compute; reflexivity|].
  apply H3. vm_compute. eexists. reflexivity.
Defined.

(** C6. [transition_state(id, new_state)] on an id that is not in the heap
    returns normally, appends one line beginning with "Error:" to the error
    stream and leaves the heap exactly as it was; on an id that is present
    it sets that descriptor's state to [new_state], keeping its id and zone
    and every other entry. *)
Theorem transition_state_cases (m : VGC_Manager) (id0 : N) (new_state : VGC_State) :
  let m' := transition_state m id0 new_state in
  (mheap m !! id0 = None ->
     mheap m' = mheap m /\
     cerr (env m') = cerr (env m) +:+ error_text id0 /\
     String.prefix "Error:"%string (error_text id0) = true /\
     cout (env m') = cout (env m)) /\
  (forall obj, mheap m !! id0 = Some obj ->
     mheap m' !! id0 =
       Some (mkObject (id obj) (zone_mask obj) (state_code new_state)) /\
     (forall k, k <> id0 -> mheap m' !! k = mheap m !! k) /\
     cerr (env m') = cerr (env m)).
Proof.
  intros m'. subst m'. unfold transition_state. split.
  - intros ->. done.
  - intros obj ->. rewrite mheap_print, mheap_set_heap. repeat split.
    + apply lookup_insert_eq.
    + intros k Hk. by apply lookup_insert_ne.
Qed.

Lemma transition_state_cases_witness :
  mheap demo_manager !! 999%N = None /\
  mheap (transition_state demo_manager 999 EXPIRED) = mheap demo_manager /\
  mheap demo_manager !! 105%N = Some (mkObject 105 1 1) /\
  mheap (transition_state demo_manager 105 DEMOTE) !! 105%N =
    Some (mkObject 105 1 3).
Proof.
  assert (Ha : mheap demo_manager !! 999%N = None) by (vm_compute; reflexivity).
  assert (Hp : mheap demo_manager !! 105%N = Some (mkObject 105 1 1))
    by (vm_compute; reflexivity).
  pose proof (transition_state_cases demo_manager 999 EXPIRED) as (H1 & _).
  pose proof (transition_state_cases demo_manager 105 DEMOTE) as (_ & H2).
  split; [exact Ha|]. split; [exact (proj1 (H1 Ha))|].
  split; [exact Hp|]. exact (proj1 (H2 _ Hp)).
Defined.

(** ** Sweep engine *)

Section Selection.

Implicit Types (h : gmap N VGC_Object) (k : N) (p : Z) (m : VGC_Manager).

Local Abbreviation dead p :=
  (fun kv : N * VGC_Object => evaluate_liveness kv.2 p = false).

(** The selection loop is a filter over the entries, keeping the keys. *)
Lemma selection_loop p (l : list (N * VGC_Object)) (acc : list N) :
  foldl (fun (acc : list N) '(id, obj) =>
           if negb (evaluate_liveness obj p) then (acc ++ [id])%list else acc)
        acc l
  = (acc ++ (filter (dead p) l).*1)%list.
Proof.
  revert acc. induction l as [|[k o] l IH]; intros acc; simpl.
  - by rewrite app_nil_r.
  - rewrite IH. destruct (evaluate_liveness o p) eqn:E; simpl.
    + rewrite filter_cons_False; [done|]. simpl. congruence.
    + rewrite filter_cons_True by done. simpl. by rewrite <- app_assoc.
Qed.

Lemma objects_to_reclaim_filter h p :
  objects_to_reclaim h p = (filter (dead p) (map_to_list h)).*1.
Proof. unfold objects_to_reclaim. by rewrite selection_loop. Qed.

Lemma elem_of_objects_to_reclaim h p k :
  k ∈ objects_to_reclaim h p <->
  exists o, h !! k = Some o /\ evaluate_liveness o p = false.
Proof.
  rewrite objects_to_reclaim_filter, list_elem_of_fmap. split.
  - intros [[k' o] [-> [Hd Hin%elem_of_map_to_list]%list_elem_of_filter]].
    by exists o.
  - intros (o & Hk & Hd). exists (k, o). split; [done|].
    apply list_elem_of_filter. split; [done|]. by apply elem_of_map_to_list.
Qed.

Lemma map_to_list_filter_perm (P : N * VGC_Object -> Prop)
    `{!forall kv, Decision (P kv)} h :
  map_to_list (filter P h) ≡ₚ filter P (map_to_list h).
Proof.
  apply NoDup_Permutation.
  - apply NoDup_map_to_list.
  - apply NoDup_filter, NoDup_map_to_list.
  - intros [k o].
    rewrite list_elem_of_filter, !elem_of_map_to_list, map_lookup_filter_Some.
    tauto.
Qed.

(** Candidates and survivors partition the registry. *)
Lemma selection_count h p :
  (length (objects_to_reclaim h p) + size (survivors h p))%nat = size h.
Proof.
  rewrite objects_to_reclaim_filter, length_fmap.
  unfold survivors.
  rewrite <- (length_map_to_list (filter _ h)), map_to_list_filter_perm.
  rewrite <- (length_map_to_list h).
  rewrite <- (filter_app_complement
                (fun kv : N * VGC_Object => evaluate_liveness kv.2 p = true)
                (map_to_list h)) at 3.
  rewrite length_app, Nat.add_comm. f_equal. f_equal.
  apply list_filter_iff. intros [k o]. simpl.
  by destruct (evaluate_liveness o p).
Qed.

Lemma survivors_lookup h p k o :
  survivors h p !! k = Some o <->
  h !! k = Some o /\ evaluate_liveness o p = true.
Proof. unfold survivors. rewrite map_lookup_filter_Some. simpl. tauto. Qed.

(** Nothing is left to select among the survivors. *)
Lemma survivors_closed h p : objects_to_reclaim (survivors h p) p = [].
Proof.
  apply elem_of_nil_inv. intros k (o & Hk & Hd)%elem_of_objects_to_reclaim.
  apply survivors_lookup in Hk as [_ Ha]. congruence.
Qed.

End Selection.

Section Reclamation.

Implicit Types (h : gmap N VGC_Object) (k : N) (p : Z) (m : VGC_Manager).

(** The subscript inserts a missing entry, the erase removes it again:
    one turn of the loop erases [k], whether or not it was there. *)
Lemma mheap_reclaim_one m k : mheap (reclaim_one m k) = delete k (mheap m).
Proof.
  unfold reclaim_one, subscript.
  destruct (mheap m !! k) as [o|] eqn:Hk; simpl.
  - reflexivity.
  - rewrite mheap_set_heap, mheap_print, mheap_set_heap.
    by rewrite delete_insert_eq, delete_id.
Qed.

Lemma reclaim_one_frame m k :
  pre_sweep_callbacks (reclaim_one m k) = pre_sweep_callbacks m /\
  post_sweep_callbacks (reclaim_one m k) = post_sweep_callbacks m /\
  calls (reclaim_one m k) = calls m /\
  cerr (env (reclaim_one m k)) = cerr (env m).
Proof. unfold reclaim_one, subscript. by destruct (mheap m !! k). Qed.

Lemma reclaim_loop_lookup (ids : list N) m k :
  mheap (foldl reclaim_one m ids) !! k =
  if decide (k ∈ ids) then None else mheap m !! k.
Proof.
  revert m. induction ids as [|i ids IH]; intros m; cbn [foldl].
  - rewrite decide_False; [done|]. apply not_elem_of_nil.
  - rewrite IH, mheap_reclaim_one.
    destruct (decide (k ∈ ids)) as [Hin|Hin].
    + rewrite decide_True; [done|]. by right.
    + destruct (decide (k = i)) as [->|Hne].
      * rewrite decide_True by left. apply lookup_delete_eq.
      * rewrite decide_False by (intros [?|?]%elem_of_cons; done).
        by apply lookup_delete_ne.
Qed.

Lemma reclaim_loop_frame (ids : list N) m :
  pre_sweep_callbacks (foldl reclaim_one m ids) = pre_sweep_callbacks m /\
  post_sweep_callbacks (foldl reclaim_one m ids) = post_sweep_callbacks m /\
  calls (foldl reclaim_one m ids) = calls m /\
  cerr (env (foldl reclaim_one m ids)) = cerr (env m).
Proof.
  revert m. induction ids as [|i ids IH]; intros m; simpl; [done|].
  destruct (IH (reclaim_one m i)) as (-> & -> & -> & ->).
  apply reclaim_one_frame.
Qed.

Lemma reclaim_frame (ids : list N) m :
  pre_sweep_callbacks (reclaim m ids) = pre_sweep_callbacks m /\
  post_sweep_callbacks (reclaim m ids) = post_sweep_callbacks m /\
  calls (reclaim m ids) = calls m /\
  cerr (env (reclaim m ids)) = cerr (env m).
Proof.
  unfold reclaim. destruct ids as [|i ids]; [done|].
  set (m1 := print m _).
  destruct (reclaim_loop_frame (i :: ids) m1) as (-> & -> & -> & ->). done.
Qed.

Lemma reclaim_lookup (ids : list N) m k :
  mheap (reclaim m ids) !! k = if decide (k ∈ ids) then None else mheap m !! k.
Proof.
  unfold reclaim. destruct ids as [|i ids].
  - rewrite decide_False; [done|]. apply not_elem_of_nil.
  - by rewrite reclaim_loop_lookup.
Qed.

(** Selection followed by reclamation leaves exactly the survivors. *)
Lemma mheap_reclaim_selected m p :
  mheap (reclaim m (objects_to_reclaim (mheap m) p)) = survivors (mheap m) p.
Proof.
  apply map_eq. intros k. rewrite reclaim_lookup.
  destruct (decide (k ∈ objects_to_reclaim (mheap m) p)) as [Hin|Hout].
  - apply elem_of_objects_to_reclaim in Hin as (o & Hk & Hd).
    symmetry. apply eq_None_not_Some. intros [o' Ho'].
    apply survivors_lookup in Ho' as [Hk' Ha]. congruence.
  - destruct (mheap m !! k) as [o|] eqn:Hk.
    + symmetry. apply survivors_lookup. split; [done|].
      destruct (evaluate_liveness o p) eqn:E; [done|].
      destruct Hout. apply elem_of_objects_to_reclaim. eauto.
    + symmetry. apply eq_None_not_Some. intros [o' Ho'].
      apply survivors_lookup in Ho' as [Hk' _]. congruence.
Qed.

End Reclamation.

Section Hooks.

Implicit Types (m : VGC_Manager) (k n : nat) (p : Z).

Lemma run_pre_sweep_frame (cbs : list PreHook) k m :
  pre_sweep_callbacks (outcome_state (run_pre_sweep k cbs m)) = pre_sweep_callbacks m /\
  post_sweep_callbacks (outcome_state (run_pre_sweep k cbs m)) = post_sweep_callbacks m.
Proof.
  revert k m. induction cbs as [|f cbs IH]; intros k m; cbn [run_pre_sweep]; [done|].
  destruct (f _) as [e|e]; [|done].
  destruct (IH (S k) (set_env (log_call m (PreCall k)) e)) as [-> ->]. done.
Qed.

Lemma run_pre_sweep_heap (cbs : list PreHook) k m :
  Forall pre_hook_observes cbs ->
  mheap (outcome_state (run_pre_sweep k cbs m)) = mheap m.
Proof.
  intros Hobs. revert k m.
  induction Hobs as [|f cbs Hf _ IH]; intros k m; cbn [run_pre_sweep]; [done|].
  specialize (Hf (env (log_call m (PreCall k)))).
  destruct (f _) as [e|e]; simpl in Hf.
  - rewrite IH. exact Hf.
  - exact Hf.
Qed.

Lemma run_pre_sweep_calls (cbs : list PreHook) k m m1 :
  run_pre_sweep k cbs m = Returned m1 ->
  calls m1 = calls m ++ (PreCall <$> seq k (length cbs)).
Proof.
  revert k m. induction cbs as [|f cbs IH]; intros k m; cbn [run_pre_sweep].
  - intros [= <-]. by rewrite app_nil_r.
  - destruct (f _) as [e|e]; [|done].
    intros ->%IH. simpl. by rewrite <- app_assoc.
Qed.

Lemma run_pre_sweep_returns (cbs : list PreHook) k m :
  Forall pre_hook_returns cbs -> exists m1, run_pre_sweep k cbs m = Returned m1.
Proof.
  intros Hret. revert k m.
  induction Hret as [|f cbs Hf _ IH]; intros k m; cbn [run_pre_sweep]; [eauto|].
  destruct (Hf (env (log_call m (PreCall k)))) as [e ->]. apply IH.
Qed.

Lemma run_post_sweep_frame (cbs : list PostHook) k n m :
  pre_sweep_callbacks (outcome_state (run_post_sweep k cbs n m)) = pre_sweep_callbacks m /\
  post_sweep_callbacks (outcome_state (run_post_sweep k cbs n m)) = post_sweep_callbacks m.
Proof.
  revert k m. induction cbs as [|f cbs IH]; intros k m; cbn [run_post_sweep]; [done|].
  destruct (f _ _) as [e|e]; [|done].
  destruct (IH (S k) (set_env (log_call m (PostCall k n (mheap m))) e)) as [-> ->].
  done.
Qed.

Lemma run_post_sweep_heap (cbs : list PostHook) k n m :
  Forall post_hook_observes cbs ->
  mheap (outcome_state (run_post_sweep k cbs n m)) = mheap m.
Proof.
  intros Hobs. revert k m.
  induction Hobs as [|f cbs Hf _ IH]; intros k m; cbn [run_post_sweep]; [done|].
  specialize (Hf n (env (log_call m (PostCall k n (mheap m))))).
  destruct (f _ _) as [e|e]; simpl in Hf.
  - rewrite IH. exact Hf.
  - exact Hf.
Qed.

(** Every post-sweep callback is called once, in list order, with the same
    count, and sees the same registry. *)
Lemma run_post_sweep_calls (cbs : list PostHook) k n m m1 :
  Forall post_hook_observes cbs ->
  run_post_sweep k cbs n m = Returned m1 ->
  calls m1 = calls m ++ ((fun i => PostCall i n (mheap m)) <$> seq k (length cbs)).
Proof.
  intros Hobs. revert k m.
  induction Hobs as [|f cbs Hf _ IH]; intros k m; cbn [run_post_sweep].
  - intros [= <-]. by rewrite app_nil_r.
  - specialize (Hf n (env (log_call m (PostCall k n (mheap m))))).
    destruct (f _ _) as [e|e]; [|done]. simpl in Hf.
    intros ->%IH. simpl. rewrite <- app_assoc. simpl.
    change (mheap (set_env (log_call m (PostCall k n (mheap m))) e))
      with (heap e).
    by rewrite Hf.
Qed.

Lemma run_post_sweep_returns (cbs : list PostHook) k n m :
  Forall post_hook_returns cbs ->
  exists m1, run_post_sweep k cbs n m = Returned m1.
Proof.
  intros Hret. revert k m.
  induction Hret as [|f cbs Hf _ IH]; intros k m; cbn [run_post_sweep]; [eauto|].
  destruct (Hf n (env (log_call m (PostCall k n (mheap m))))) as [e ->]. apply IH.
Qed.

End Hooks.

Section Sweep.

Implicit Types (m : VGC_Manager) (h : gmap N VGC_Object) (p : Z).

Lemma survivors_id h p : objects_to_reclaim h p = [] -> survivors h p = h.
Proof.
  intros Hnil. apply map_eq. intros k. apply option_eq. intros o.
  rewrite survivors_lookup. split; [tauto|]. intros Hk. split; [done|].
  destruct (evaluate_liveness o p) eqn:E; [done|].
  assert (Hin : k ∈ objects_to_reclaim h p)
    by (apply elem_of_objects_to_reclaim; eauto).
  rewrite Hnil in Hin. by apply not_elem_of_nil in Hin.
Qed.

(** What a sweep that returns has done, when hooks only observe. *)
Lemma sweep_returned m p m' :
  hooks_observe m ->
  sweep m p = Returned m' ->
  mheap m' = survivors (mheap m) p /\
  pre_sweep_callbacks m' = pre_sweep_callbacks m /\
  post_sweep_callbacks m' = post_sweep_callbacks m /\
  calls m' =
    calls m ++ (PreCall <$> seq 0 (length (pre_sweep_callbacks m))) ++
    ((fun i => PostCall i (length (objects_to_reclaim (mheap m) p))
                        (survivors (mheap m) p))
       <$> seq 0 (length (post_sweep_callbacks m))).
Proof.
  intros [Hpre Hpost]. unfold sweep.
  set (m0 := print m _).
  change (pre_sweep_callbacks m0) with (pre_sweep_callbacks m).
  pose proof (run_pre_sweep_heap _ 0 m0 Hpre) as Hh1.
  pose proof (run_pre_sweep_frame (pre_sweep_callbacks m) 0 m0) as [Hf1 Hf1'].
  destruct (run_pre_sweep 0 (pre_sweep_callbacks m) m0) as [m1|m1] eqn:E1;
    cbn [bind]; [|done].
  apply run_pre_sweep_calls in E1. simpl in Hh1, Hf1, Hf1'.
  change (mheap m0) with (mheap m) in Hh1.
  rewrite Hh1.
  set (ids := objects_to_reclaim (mheap m) p).
  destruct (reclaim_frame ids m1) as (Hr1 & Hr2 & Hr3 & _).
  assert (Hh2 : mheap (reclaim m1 ids) = survivors (mheap m) p).
  { subst ids. rewrite <- Hh1. apply mheap_reclaim_selected. }
  rewrite Hr2, Hf1'. change (post_sweep_callbacks m0) with (post_sweep_callbacks m).
  pose proof (run_post_sweep_heap _ 0 (length ids) (reclaim m1 ids) Hpost) as Hh3.
  pose proof (run_post_sweep_frame (post_sweep_callbacks m) 0 (length ids)
                (reclaim m1 ids)) as [Hf3 Hf3'].
  destruct (run_post_sweep 0 (post_sweep_callbacks m) (length ids) (reclaim m1 ids))
    as [m3|m3] eqn:E3; cbn [bind]; [|done].
  apply run_post_sweep_calls in E3; [|done]. simpl in Hh3, Hf3, Hf3'.
  intros [= <-].
  rewrite mheap_print, Hh3, Hh2. split; [done|].
  split; [by rewrite <- Hf1, <- Hr1|].
  split; [by rewrite <- Hf1', <- Hr2|].
  change (calls (print m3 _)) with (calls m3).
  rewrite E3, Hr3, E1, Hh2. by rewrite <- app_assoc.
Qed.

(** With hooks that never throw, the sweep returns. *)
Lemma sweep_returns m p : hooks_return m -> exists m', sweep m p = Returned m'.
Proof.
  intros [Hpre Hpost]. unfold sweep.
  set (m0 := print m _).
  change (pre_sweep_callbacks m0) with (pre_sweep_callbacks m).
  pose proof (run_pre_sweep_frame (pre_sweep_callbacks m) 0 m0) as [_ Hf1].
  destruct (run_pre_sweep_returns _ 0 m0 Hpre) as [m1 E1].
  rewrite E1 in Hf1 |- *. cbn [bind]. simpl in Hf1.
  set (ids := objects_to_reclaim (mheap m1) p).
  destruct (reclaim_frame ids m1) as (_ & Hr2 & _).
  rewrite Hr2, Hf1. change (post_sweep_callbacks m0) with (post_sweep_callbacks m).
  destruct (run_post_sweep_returns _ 0 (length ids) (reclaim m1 ids) Hpost)
    as [m3 ->].
  cbn [bind]. eauto.
Qed.

(** Returning or throwing, a sweep with observing hooks leaves either the
    registry it found or its survivors. *)
Lemma sweep_outcome_heap m p :
  hooks_observe m ->
  mheap (outcome_state (sweep m p)) = mheap m \/
  mheap (outcome_state (sweep m p)) = survivors (mheap m) p.
Proof.
  intros [Hpre Hpost]. unfold sweep.
  set (m0 := print m _).
  change (pre_sweep_callbacks m0) with (pre_sweep_callbacks m).
  pose proof (run_pre_sweep_heap _ 0 m0 Hpre) as Hh1.
  pose proof (run_pre_sweep_frame (pre_sweep_callbacks m) 0 m0) as [_ Hf1].
  destruct (run_pre_sweep 0 (pre_sweep_callbacks m) m0) as [m1|m1];
    cbn [bind]; simpl in Hh1, Hf1; [|by left].
  right. change (mheap m0) with (mheap m) in Hh1.
  set (ids := objects_to_reclaim (mheap m1) p).
  destruct (reclaim_frame ids m1) as (_ & Hr2 & _).
  rewrite Hr2, Hf1. change (post_sweep_callbacks m0) with (post_sweep_callbacks m).
  pose proof (run_post_sweep_heap _ 0 (length ids) (reclaim m1 ids) Hpost) as Hh3.
  assert (Hh2 : mheap (reclaim m1 ids) = survivors (mheap m) p).
  { subst ids. rewrite <- Hh1. apply mheap_reclaim_selected. }
  destruct (run_post_sweep 0 (post_sweep_callbacks m) (length ids) (reclaim m1 ids))
    as [m3|m3]; cbn [bind]; simpl in Hh3 |- *.
  - by rewrite mheap_print, Hh3.
  - by rewrite Hh3.
Qed.

Lemma demo_hooks_observe : hooks_observe demo_manager.
Proof. split; repeat constructor; by intros ?. Qed.

Lemma demo_hooks_return : hooks_return demo_manager.
Proof. split; repeat constructor; intros ?; eexists; reflexivity. Qed.

End Sweep.

Lemma demo_sweep_returned : sweep demo_manager 0 = Returned demo_swept.
Proof. vm_compute. reflexivity. Qed.

Lemma new_calls_app (m m' : VGC_Manager) (l : list HookCall) :
  calls m' = calls m ++ l -> new_calls m m' = l.
Proof. intros H. unfold new_calls. rewrite H. apply drop_app_length. Qed.

(** ** The loops of [sweep] against the spec's words *)

Section InOrder.

Implicit Types (m : VGC_Manager) (k n : nat) (p : Z) (e : Env).

(** The pre-sweep loop does to the environment what calling the callbacks
    in order does, and nothing else. *)
Lemma run_pre_sweep_env (cbs : list PreHook) k m :
  outcome_env (run_pre_sweep k cbs m) = invoke_pre_in_order cbs (env m).
Proof.
revert k m. induction cbs as [|f cbs IH]; intros k m;
  cbn [run_pre_sweep invoke_pre_in_order]; [done|].
change (env (log_call m (PreCall k))) with (env m).
destruct (f (env m)) as [e'|e']; [|done]. by rewrite IH.
Qed.

(** The post-sweep loop likewise, with the count it is given. *)
Lemma run_post_sweep_env (cbs : list PostHook) k n m :
  outcome_env (run_post_sweep k cbs n m) = invoke_post_in_order cbs n (env m).
Proof.
revert k m. induction cbs as [|f cbs IH]; intros k m;
  cbn [run_post_sweep invoke_post_in_order]; [done|].
change (env (log_call m (PostCall k n (mheap m)))) with (env m).
destruct (f n (env m)) as [e'|e']; [|done]. by rewrite IH.
Qed.

(** Reclamation reads and writes the environment only. *)
Lemma env_reclaim_one m m' (i : N) :
  env m = env m' -> env (reclaim_one m i) = env (reclaim_one m' i).
Proof.
destruct m as [e a b c], m' as [e' a' b' c']. cbn [env]. intros <-.
unfold reclaim_one, subscript, mheap. cbn [env].
by destruct (heap e !! i).
Qed.

Lemma env_reclaim_loop (ids : list N) m m' :
  env m = env m' -> env (foldl reclaim_one m ids) = env (foldl reclaim_one m' ids).
Proof.
revert m m'. induction ids as [|i ids IH]; intros m m' He; cbn [foldl]; [done|].
by apply IH, env_reclaim_one.
Qed.

Lemma env_reclaim (ids : list N) m m' :
  env m = env m' -> env (reclaim m ids) = env (reclaim m' ids).
Proof.
intros He. unfold reclaim. destruct ids as [|i ids].
- unfold print, mheap. by rewrite He.
- apply env_reclaim_loop. unfold print, mheap. by rewrite He.
Qed.

(** With observing hooks the candidates are those of the heap at entry, and
    reclamation leaves its survivors. *)
Lemma selected_observed m p e_pre :
  Forall pre_hook_observes (pre_sweep_callbacks m) ->
  invoke_pre_in_order (pre_sweep_callbacks m) (sweep_start m) = Returned e_pre ->
  heap e_pre = mheap m /\
  selected e_pre p = objects_to_reclaim (mheap m) p /\
  heap (reclaimed_env m e_pre p) = survivors (mheap m) p.
Proof.
intros Hobs Hpre.
assert (Hh : heap e_pre = mheap m).
{ pose proof (run_pre_sweep_heap _ 0 (print m sweep_header) Hobs) as H.
  pose proof (run_pre_sweep_env (pre_sweep_callbacks m) 0 (print m sweep_header)) as He.
  change (env (print m sweep_header)) with (sweep_start m) in He.
  rewrite Hpre in He.
  destruct (run_pre_sweep 0 _ (print m sweep_header)) as [m1|m1];
    cbn [outcome_env outcome_state] in He, H; [|done].
  injection He as He. by rewrite <- He. }
split; [exact Hh|]. unfold selected. rewrite Hh. split; [done|].
unfold reclaimed_env, selected. rewrite Hh.
assert (Hm : mheap (set_env m e_pre) = mheap m) by exact Hh.
rewrite <- Hm. apply (mheap_reclaim_selected (set_env m e_pre) p).
Qed.

(** What [sweep] does to the environment: the header, the pre-sweep
    callbacks in order, selection and reclamation, the post-sweep callbacks
    in order with the number of candidates, the footer; the first throw ends
    it there. *)
Lemma sweep_env m p :
  outcome_env (sweep m p) =
  match invoke_pre_in_order (pre_sweep_callbacks m) (sweep_start m) with
  | Threw e => Threw e
  | Returned e_pre =>
      match invoke_post_in_order (post_sweep_callbacks m)
              (length (selected e_pre p)) (reclaimed_env m e_pre p) with
      | Threw e => Threw e
      | Returned e_post => Returned (env_print e_post sweep_footer)
      end
  end.
Proof.
unfold sweep. fold sweep_header sweep_footer.
set (m0 := print m sweep_header).
change (pre_sweep_callbacks m0) with (pre_sweep_callbacks m).
pose proof (run_pre_sweep_env (pre_sweep_callbacks m) 0 m0) as He1.
change (env m0) with (sweep_start m) in He1.
pose proof (run_pre_sweep_frame (pre_sweep_callbacks m) 0 m0) as [_ Hf1].
destruct (run_pre_sweep 0 (pre_sweep_callbacks m) m0) as [m1|m1];
  cbn [bind outcome_env outcome_state] in *; rewrite <- He1; [|done].
set (ids := objects_to_reclaim (mheap m1) p).
destruct (reclaim_frame ids m1) as (_ & Hr2 & _).
rewrite Hr2, Hf1. change (post_sweep_callbacks m0) with (post_sweep_callbacks m).
change (selected (env m1) p) with ids.
assert (Hre : reclaimed_env m (env m1) p = env (reclaim m1 ids)).
{ unfold reclaimed_env. change (selected (env m1) p) with ids.
  by apply env_reclaim. }
rewrite Hre.
pose proof (run_post_sweep_env (post_sweep_callbacks m) 0 (length ids)
              (reclaim m1 ids)) as He3.
destruct (run_post_sweep 0 (post_sweep_callbacks m) (length ids) (reclaim m1 ids))
  as [m3|m3]; cbn [bind outcome_env] in *; rewrite <- He3; done.
Qed.

(** The pre-sweep loop up to the callback that throws in this run. *)
Lemma run_pre_sweep_throws_here (l1 l2 : list PreHook) (f : PreHook) k m e1 e :
  invoke_pre_in_order l1 (env m) = Returned e1 ->
  f e1 = Threw e ->
  exists m1, run_pre_sweep k (l1 ++ f :: l2) m = Threw m1 /\
             env m1 = e /\
             calls m1 = calls m ++ (PreCall <$> seq k (S (length l1))).
Proof.
revert k m. induction l1 as [|g l1 IH]; intros k m;
  cbn [run_pre_sweep invoke_pre_in_order app];
  change (env (log_call m (PreCall k))) with (env m).
- intros [= <-] ->. eexists. split; [done|]. split; done.
- destruct (g (env m)) as [e'|e'] eqn:Hg; [|done]. intros H1 Hf.
  destruct (IH (S k) (set_env (log_call m (PreCall k)) e') H1 Hf)
    as (m1 & -> & He & Hc).
  exists m1. split; [done|]. split; [done|].
  rewrite Hc. cbn. by rewrite <- app_assoc.
Qed.

End InOrder.

(** C2. With hooks that only observe the heap, [sweep(p)] removes exactly
    the descriptors whose liveness under [p] is false when the candidates are
    selected, and no others: a dead descriptor is gone, a live one is kept
    as it was, nothing is added; so every descriptor left after the sweep
    returns is alive under [p].  Selection followed by reclamation has this
    effect on any registry, and the sweep returns whenever no hook throws. *)
Theorem sweep_removes_exactly_dead (m : VGC_Manager) (p : Z) :
  hooks_observe m ->
  mheap (reclaim m (objects_to_reclaim (mheap m) p)) = survivors (mheap m) p /\
  (hooks_return m -> exists m', sweep m p = Returned m') /\
  (forall m', sweep m p = Returned m' ->
     (forall k o, mheap m !! k = Some o -> evaluate_liveness o p = false ->
                  mheap m' !! k = None) /\
     (forall k o, mheap m !! k = Some o -> evaluate_liveness o p = true ->
                  mheap m' !! k = Some o) /\
     (forall k, mheap m !! k = None -> mheap m' !! k = None) /\
     (forall k o, mheap m' !! k = Some o -> evaluate_liveness o p = true)).
Proof.
  intros Hobs. split; [apply mheap_reclaim_selected|].
  split; [apply sweep_returns|].
  intros m' Hret. destruct (sweep_returned m p m' Hobs Hret) as (Hh & _).
  rewrite Hh. repeat split.
  - intros k o Hk Hd. apply eq_None_not_Some. intros [o' Ho'].
    apply survivors_lookup in Ho' as [Hk' Ha]. congruence.
  - intros k o Hk Ha. by apply survivors_lookup.
  - intros k Hk. apply eq_None_not_Some. intros [o' Ho'].
    apply survivors_lookup in Ho' as [Hk' _]. congruence.
  - intros k o Ho. by apply survivors_lookup in Ho as [_ Ha].
Qed.

Lemma sweep_removes_exactly_dead_witness :
  hooks_observe demo_manager /\
  sweep demo_manager 0 = Returned demo_swept /\
  mheap demo_swept !! 102%N = None /\
  mheap demo_swept !! 104%N = None /\
  mheap demo_swept !! 105%N = Some (mkObject 105 1 1).
Proof.
  split; [exact demo_hooks_observe|]. split; [exact demo_sweep_returned|].
  destruct (sweep_removes_exactly_dead demo_manager 0 demo_hooks_observe)
    as (_ & _ & H).
  destruct (H demo_swept demo_sweep_returned) as (Hdead & Hlive & _).
  split; [|split].
  - apply (Hdead 102%N (mkObject 102 1 6)); vm_compute; reflexivity.
  - apply (Hdead 104%N (mkObject 104 2 0)); vm_compute; reflexivity.
  - apply (Hlive 105%N (mkObject 105 1 1)); vm_compute; reflexivity.
Defined.



(** C4, as stated, fails: with a throwing pre-sweep callback registered, the
    EXPIRED descriptor 401 is dead under mask 7 and is still in the heap when
    control leaves [sweep(7)]. *)
Lemma pre_hook_failure_blocks_reclamation :
  pre_sweep_callbacks throwing_manager = [throwing_pre_hook] /\
  (exists m', sweep throwing_manager 7 = Threw m') /\
  ~ (forall k o,
       mheap throwing_manager !! k = Some o ->
       evaluate_liveness o 7 = false ->
       mheap (outcome_state (sweep throwing_manager 7)) !! k = None).
Proof.
  split; [reflexivity|]. split; [eexists; vm_compute; reflexivity|].
  intros H.
  specialize (H 401%N (mkObject 401 4 7)).
  assert (Hk : mheap throwing_manager !! 401%N = Some (mkObject 401 4 7))
    by (vm_compute; reflexivity).
  specialize (H Hk eq_refl). vm_compute in H. discriminate H.
Qed.

(** C4, amended. When a registered pre-sweep callback throws during
    [sweep(p)] -- in this run, the callbacks registered before it having
    returned -- the exception leaves [sweep] at once: the environment in
    which the sweep ends is exactly the one the throwing callback left, so
    nothing is done after the throw: no later pre-sweep callback, no
    candidate selection, no reclamation, no post-sweep callback, no closing
    line.  With observing hooks the heap is exactly as it was before the
    sweep, and every descriptor that is not alive under [p] is still in
    it. *)
Theorem sweep_pre_hook_throws (m : VGC_Manager) (p : Z)
    (l1 l2 : list PreHook) (f : PreHook) (e1 e : Env) :
  pre_sweep_callbacks m = l1 ++ f :: l2 ->
  invoke_pre_in_order l1 (sweep_start m) = Returned e1 ->
  f e1 = Threw e ->
  exists m', sweep m p = Threw m' /\
             env m' = e /\
             new_calls m m' = PreCall <$> seq 0 (S (length l1)) /\
             (hooks_observe m ->
              mheap m' = mheap m /\
              forall k o, mheap m !! k = Some o ->
                          evaluate_liveness o p = false ->
                          mheap m' !! k = Some o).
Proof.
  intros Hsplit Hl1 Hf. unfold sweep. fold sweep_header.
  set (m0 := print m sweep_header).
  change (pre_sweep_callbacks m0) with (pre_sweep_callbacks m).
  rewrite Hsplit.
  destruct (run_pre_sweep_throws_here l1 l2 f 0 m0 e1 e Hl1 Hf)
    as (m1 & E & He & Hc).
  rewrite E. cbn [bind]. exists m1.
  split; [done|]. split; [exact He|]. split; [by apply new_calls_app|].
  intros [Hobs _].
  assert (Hh : mheap m1 = mheap m).
  { pose proof (run_pre_sweep_heap _ 0 m0 Hobs) as Hh.
    rewrite Hsplit, E in Hh. exact Hh. }
  split; [exact Hh|]. intros k o Hk _. by rewrite Hh.
Qed.

Lemma sweep_pre_hook_throws_witness :
  pre_sweep_callbacks throwing_manager = [] ++ throwing_pre_hook :: [] /\
  throwing_pre_hook (sweep_start throwing_manager)
    = Threw (sweep_start throwing_manager) /\
  exists m', sweep throwing_manager 7 = Threw m' /\
             env m' = sweep_start throwing_manager /\
             new_calls throwing_manager m' = [PreCall 0] /\
             (hooks_observe throwing_manager ->
              mheap m' = mheap throwing_manager /\
              forall k o, mheap throwing_manager !! k = Some o ->
                          evaluate_liveness o 7 = false ->
                          mheap m' !! k = Some o).
Proof.
  split; [reflexivity|]. split; [reflexivity|].
  apply (sweep_pre_hook_throws throwing_manager 7 [] [] throwing_pre_hook
           (sweep_start throwing_manager) (sweep_start throwing_manager));
    reflexivity.
Defined.

(** C8. With hooks that only observe the heap, after a [sweep(p)] that
    returned, a second [sweep(p)] finds no candidate, leaves the heap
    identical to the heap after the first, and hands every post-sweep
    callback a reclaimed count of zero; it returns whenever no hook throws. *)
Theorem sweep_twice (m m1 : VGC_Manager) (p : Z) :
  hooks_observe m ->
  sweep m p = Returned m1 ->
  objects_to_reclaim (mheap m1) p = [] /\
  mheap (outcome_state (sweep m1 p)) = mheap m1 /\
  (hooks_return m -> exists m2, sweep m1 p = Returned m2) /\
  (forall m2, sweep m1 p = Returned m2 ->
     mheap m2 = mheap m1 /\
     new_calls m1 m2 =
       (PreCall <$> seq 0 (length (pre_sweep_callbacks m))) ++
       ((fun i => PostCall i 0%nat (mheap m1))
          <$> seq 0 (length (post_sweep_callbacks m)))).
Proof.
  intros Hobs Hret.
  destruct (sweep_returned m p m1 Hobs Hret) as (Hh & Hpre & Hpost & _).
  assert (Hnil : objects_to_reclaim (mheap m1) p = [])
    by (rewrite Hh; apply survivors_closed).
  assert (Hobs1 : hooks_observe m1)
    by (unfold hooks_observe; rewrite Hpre, Hpost; exact Hobs).
  pose proof (survivors_id _ _ Hnil) as Hid.
  split; [exact Hnil|]. split; [|split].
  - destruct (sweep_outcome_heap m1 p Hobs1) as [->| ->]; [done|exact Hid].
  - intros Hr. apply sweep_returns.
    unfold hooks_return. rewrite Hpre, Hpost. exact Hr.
  - intros m2 Hret2.
    destruct (sweep_returned m1 p m2 Hobs1 Hret2) as (Hh2 & _ & _ & Hc).
    rewrite Hnil, Hid, Hpre, Hpost in Hc. rewrite Hh2, Hid.
    split; [done|]. by apply new_calls_app.
Qed.

Lemma sweep_twice_witness :
  hooks_observe demo_manager /\
  sweep demo_manager 0 = Returned demo_swept /\
  objects_to_reclaim (mheap demo_swept) 0 = [] /\
  mheap (outcome_state (sweep demo_swept 0)) = mheap demo_swept.
Proof.
  split; [exact demo_hooks_observe|]. split; [exact demo_sweep_returned|].
  destruct (sweep_twice demo_manager demo_swept 0 demo_hooks_observe
              demo_sweep_returned) as (H1 & H2 & _).
  split; [exact H1 | exact H2].
Defined.

(** * Further properties of the collector *)

(** ** Liveness evaluator *)

(** Outside the two special states the verdict is the score test. *)
Lemma evaluate_liveness_score (obj : VGC_Object) (p : Z) :
  is_u8 (state obj) -> state obj <> 7 -> state obj <> 4 ->
  (evaluate_liveness obj p = true <->
   Z.lor (Z.land (state obj) (zone_mask obj)) (Z.land (state obj) p) <> 0 \/
   state obj = 1).
Proof.
  intros Hs H7 H4. unfold evaluate_liveness. cbn [state_code].
  destruct (Z.eqb_spec (state obj) 7) as [|_]; [contradiction|].
  destruct (Z.eqb_spec (state obj) 4) as [|_]; [contradiction|].
  rewrite (liveness_score_narrow _ _ _ Hs).
  pose proof (liveness_score_nonneg (state obj) (zone_mask obj) p Hs).
  rewrite orb_true_iff, Z.ltb_lt, Z.eqb_eq. lia.
Qed.

Lemma evaluate_liveness_idle (obj : VGC_Object) (p : Z) :
  state obj = 0 -> evaluate_liveness obj p = false.
Proof. intros H. unfold evaluate_liveness. rewrite H. reflexivity. Qed.

Lemma evaluate_liveness_expired (obj : VGC_Object) (p : Z) :
  state obj = 7 -> evaluate_liveness obj p = false.
Proof. intros H. unfold evaluate_liveness. rewrite H. reflexivity. Qed.

Lemma evaluate_liveness_persist (obj : VGC_Object) (p : Z) :
  state obj = 4 -> evaluate_liveness obj p = true.
Proof. intros H. unfold evaluate_liveness. rewrite H. reflexivity. Qed.

Lemma evaluate_liveness_active (obj : VGC_Object) (p : Z) :
  state obj = 1 -> evaluate_liveness obj p = true.
Proof.
  intros H. unfold evaluate_liveness. rewrite H. cbn [state_code Z.eqb Pos.eqb].
  apply orb_true_r.
Qed.

(** X1. Under an empty pending mask, which named states survive in which
    zone: in RED exactly ACTIVE, DEMOTE, PERSIST and DEFERRED; in GREEN
    exactly ACTIVE, PROMOTE, DEMOTE, PERSIST and MARKED; in BLUE exactly
    ACTIVE, PERSIST, DEFERRED and MARKED.  IDLE and EXPIRED survive
    nowhere. *)
Theorem liveness_by_zone_no_pending (i : N) (z : MemoryZone) (s : VGC_State) :
  evaluate_liveness (mkObject i (zone_code z) (state_code s)) 0 = true <->
  match z with
  | RED => In s [ACTIVE; DEMOTE; PERSIST; DEFERRED]
  | GREEN => In s [ACTIVE; PROMOTE; DEMOTE; PERSIST; MARKED]
  | BLUE => In s [ACTIVE; PERSIST; DEFERRED; MARKED]
  end.
Proof.
  destruct z, s; cbn; split; intros H;
    solve [ reflexivity | discriminate H | tauto
          | repeat (destruct H as [H|H]; try discriminate H); contradiction ].
Qed.

(** X2. Pending bits only rescue: a descriptor (with a [uint8_t] state) that
    is alive under a pending mask is alive under every mask with more bits
    set; in particular what survives [sweep()] with the empty mask survives
    under any mask. *)
Theorem pending_mask_only_rescues (obj : VGC_Object) (p q : Z) :
  is_u8 (state obj) ->
  (evaluate_liveness obj p = true ->
   evaluate_liveness obj (Z.lor p q) = true) /\
  (evaluate_liveness obj 0 = true -> evaluate_liveness obj q = true).
Proof.
  intros Hs.
  assert (Hgen : forall a b, evaluate_liveness obj a = true ->
                             evaluate_liveness obj (Z.lor a b) = true).
  { intros a b Ha.
    destruct (Z.eq_dec (state obj) 7) as [E7|N7].
    { by rewrite evaluate_liveness_expired in Ha. }
    destruct (Z.eq_dec (state obj) 4) as [E4|N4].
    { by apply evaluate_liveness_persist. }
    apply (evaluate_liveness_score obj _ Hs N7 N4).
    apply (evaluate_liveness_score obj _ Hs N7 N4) in Ha as [Ha|Ha]; [|by right].
    left. rewrite Z.land_lor_distr_r, Z.lor_assoc. intros H0.
    apply Z.lor_eq_0_iff in H0 as [H0 _]. contradiction. }
  split; [apply Hgen|].
  intros H0. apply (Hgen 0 q) in H0. by rewrite Z.lor_0_l in H0.
Qed.

Lemma pending_mask_only_rescues_witness :
  is_u8 (state (mkObject 9 2 5)) /\
  (evaluate_liveness (mkObject 9 2 5) 1 = true ->
   evaluate_liveness (mkObject 9 2 5) (Z.lor 1 2) = true).
Proof.
  assert (Hs : is_u8 (state (mkObject 9 2 5))) by (unfold is_u8; simpl; lia).
  split; [exact Hs|].
  exact (proj1 (pending_mask_only_rescues (mkObject 9 2 5) 1 2 Hs)).
Defined.

(** X3. Under the full pending mask 0b111 a descriptor with a 3-bit state is
    alive exactly when its state is neither IDLE (0) nor EXPIRED (7),
    whatever its zone mask. *)
Theorem full_mask_spares_all_but_idle_expired (obj : VGC_Object) :
  0 <= state obj <= 7 ->
  (evaluate_liveness obj 7 = true <-> state obj <> 0 /\ state obj <> 7).
Proof.
  intros Hr.
  destruct (Z.eq_dec (state obj) 7) as [E7|N7].
  { rewrite evaluate_liveness_expired by done. split; [done|tauto]. }
  destruct (Z.eq_dec (state obj) 0) as [E0|N0].
  { rewrite evaluate_liveness_idle by done. split; [done|tauto]. }
  split; [done|]. intros _.
  destruct (Z.eq_dec (state obj) 4) as [E4|N4].
  { by apply evaluate_liveness_persist. }
  apply evaluate_liveness_score; [unfold is_u8; lia|done|done|].
  left. intros H0. apply Z.lor_eq_0_iff in H0 as [_ H0].
  assert (H7 : Z.land (state obj) 7 = state obj).
  { change 7 with (Z.ones 3). rewrite Z.land_ones by lia.
    apply Z.mod_small. lia. }
  congruence.
Qed.

Lemma full_mask_spares_all_but_idle_expired_witness :
  0 <= state (mkObject 3 4 2) <= 7 /\
  (evaluate_liveness (mkObject 3 4 2) 7 = true <-> 2 <> 0 /\ 2 <> 7).
Proof.
  assert (Hr : 0 <= state (mkObject 3 4 2) <= 7) by (simpl; lia).
  split; [exact Hr|].
  exact (full_mask_spares_all_but_idle_expired (mkObject 3 4 2) Hr).
Defined.

(** ** Printable names *)

(** X4. [state_name] answers "UNKNOWN" exactly for a state outside [0,7],
    and [zone_name] answers "MIXED_ZONE" exactly for a zone mask that is
    none of RED (1), GREEN (2), BLUE (4). *)
Theorem name_fallbacks (o : VGC_Object) :
  (state_name o = "UNKNOWN"%string <-> ~ 0 <= state o <= 7) /\
  (zone_name o = "MIXED_ZONE"%string <->
   zone_mask o <> 1 /\ zone_mask o <> 2 /\ zone_mask o <> 4).
Proof.
  unfold state_name, zone_name. split.
  - destruct (state o) as [|p|p]; [split; [discriminate|lia]| |split; [lia|done]].
    destruct p as [[[p|p|]|[p|p|]|]|[[p|p|]|[p|p|]|]|];
      (split; [first [discriminate | lia] | first [lia | reflexivity]]).
  - destruct (zone_mask o) as [|p|p]; [split; [lia|done]| |split; [lia|done]].
    destruct p as [[[p|p|]|[p|p|]|]|[[p|p|]|[p|p|]|]|];
      (split; [first [discriminate | lia] | first [lia | reflexivity]]).
Qed.

(** X5. The printable names identify the values: two descriptors with
    states in [0,7] and the same [state_name] have the same state, and two
    descriptors with one-hot zone masks and the same [zone_name] have the
    same zone mask. *)
Theorem names_identify_values (a b : VGC_Object) :
  (0 <= state a <= 7 -> 0 <= state b <= 7 ->
   state_name a = state_name b -> state a = state b) /\
  ((zone_mask a = 1 \/ zone_mask a = 2 \/ zone_mask a = 4) ->
   (zone_mask b = 1 \/ zone_mask b = 2 \/ zone_mask b = 4) ->
   zone_name a = zone_name b -> zone_mask a = zone_mask b).
Proof.
  unfold state_name, zone_name. split.
  - intros Ha Hb.
    assert (Ea : state a = 0 \/ state a = 1 \/ state a = 2 \/ state a = 3 \/
                 state a = 4 \/ state a = 5 \/ state a = 6 \/ state a = 7) by lia.
    assert (Eb : state b = 0 \/ state b = 1 \/ state b = 2 \/ state b = 3 \/
                 state b = 4 \/ state b = 5 \/ state b = 6 \/ state b = 7) by lia.
    clear Ha Hb.
    repeat (destruct Ea as [Ea|Ea]); rewrite Ea;
      repeat (destruct Eb as [Eb|Eb]); rewrite Eb;
      intros H; first [reflexivity | discriminate H].
  - intros Ha Hb.
    repeat (destruct Ha as [Ha|Ha]); rewrite Ha;
      repeat (destruct Hb as [Hb|Hb]); rewrite Hb;
      intros H; first [reflexivity | discriminate H].
Qed.

Lemma names_identify_values_witness :
  0 <= state (mkObject 1 1 6) <= 7 /\
  (state_name (mkObject 1 1 6) = state_name (mkObject 2 4 6) ->
   state (mkObject 1 1 6) = state (mkObject 2 4 6)).
Proof.
  assert (Ha : 0 <= state (mkObject 1 1 6) <= 7) by (simpl; lia).
  assert (Hb : 0 <= state (mkObject 2 4 6) <= 7) by (simpl; lia).
  split; [exact Ha|].
  exact (proj1 (names_identify_values (mkObject 1 1 6) (mkObject 2 4 6)) Ha Hb).
Defined.

(** ** Heap registry and state transitions, composed *)

Lemma lookup_transition_state (m : VGC_Manager) (k j : N) (st : VGC_State) :
  mheap (transition_state m k st) !! j =
  if decide (k = j)
  then (fun o => with_state o (state_code st)) <$> mheap m !! j
  else mheap m !! j.
Proof.
  unfold transition_state.
  destruct (mheap m !! k) as [o|] eqn:Hk.
  - rewrite mheap_print, mheap_set_heap.
    destruct (decide (k = j)) as [<-|Hne].
    + by rewrite lookup_insert_eq, Hk.
    + by rewrite lookup_insert_ne.
  - rewrite mheap_eprint. destruct (decide (k = j)) as [<-|Hne]; [|done].
    by rewrite Hk.
Qed.

Lemma cerr_transition_state (m : VGC_Manager) (k : N) (st : VGC_State) :
  cerr (env (transition_state m k st)) =
  match mheap m !! k with
  | Some _ => cerr (env m)
  | None => (cerr (env m) +:+ error_text k)%string
  end.
Proof. unfold transition_state. by destruct (mheap m !! k). Qed.

(** X6. Allocating twice under one id: the last call wins.  The heap is the
    one a single call with the last arguments gives, whatever the first
    call's zone and state were, and the second call always writes the
    overwrite warning. *)
Theorem allocate_last_wins (m : VGC_Manager) (i : N) (z1 z2 : MemoryZone)
    (s1 s2 : VGC_State) :
  mheap (allocate (allocate m i z1 s1) i z2 s2) = mheap (allocate m i z2 s2) /\
  cerr (env (allocate (allocate m i z1 s1) i z2 s2)) =
    (cerr (env (allocate m i z1 s1)) +:+ warning_text i)%string.
Proof.
  split.
  - rewrite !mheap_allocate. apply insert_insert_eq.
  - rewrite cerr_allocate, mheap_allocate. by rewrite lookup_insert_eq.
Qed.

(** X7. Allocations under different ids do not interfere: made in either
    order they give the same heap. *)
Theorem allocate_commute (m : VGC_Manager) (i j : N) (zi zj : MemoryZone)
    (si sj : VGC_State) :
  i <> j ->
  mheap (allocate (allocate m i zi si) j zj sj) =
  mheap (allocate (allocate m j zj sj) i zi si).
Proof.
  intros Hne. rewrite !mheap_allocate. by apply insert_insert_ne.
Qed.

Lemma allocate_commute_witness :
  201%N <> 301%N /\
  mheap (allocate (allocate demo_manager 201 GREEN DEFERRED) 301 RED DEFERRED) =
  mheap (allocate (allocate demo_manager 301 RED DEFERRED) 201 GREEN DEFERRED).
Proof.
  assert (Hne : 201%N <> 301%N) by discriminate.
  split; [exact Hne|].
  exact (allocate_commute demo_manager 201 301 GREEN RED DEFERRED DEFERRED Hne).
Defined.

(** X8. A transition right after an allocation of the same id always finds
    the descriptor: it writes no error, and the heap is the one the
    allocation would have given with the new state as initial state. *)
Theorem transition_after_allocate (m : VGC_Manager) (i : N) (z : MemoryZone)
    (s s' : VGC_State) :
  mheap (transition_state (allocate m i z s) i s') = mheap (allocate m i z s') /\
  cerr (env (transition_state (allocate m i z s) i s')) =
    cerr (env (allocate m i z s)).
Proof.
  split.
  - apply map_eq. intros j. rewrite lookup_transition_state, !mheap_allocate.
    destruct (decide (i = j)) as [<-|Hne].
    + by rewrite !lookup_insert_eq.
    + by rewrite !lookup_insert_ne.
  - rewrite cerr_transition_state, mheap_allocate. by rewrite lookup_insert_eq.
Qed.

(** X9. Of two transitions of one id the last wins: the heap after both is
    the heap after the second alone, whether or not the id is present.  With
    equal states: repeating a transition does not change the heap again. *)
Theorem transition_last_wins (m : VGC_Manager) (i : N) (s1 s2 : VGC_State) :
  mheap (transition_state (transition_state m i s1) i s2) =
    mheap (transition_state m i s2) /\
  mheap (transition_state (transition_state m i s2) i s2) =
    mheap (transition_state m i s2).
Proof.
  assert (H : forall a b,
             mheap (transition_state (transition_state m i a) i b) =
             mheap (transition_state m i b)).
  { intros a b. apply map_eq. intros j. rewrite !lookup_transition_state.
    destruct (decide (i = j)) as [<-|Hne]; [|done].
    by destruct (mheap m !! i). }
  split; apply H.
Qed.

(** X10. A transition never adds or removes a descriptor and never touches
    an id or a zone: the set of ids and [object_count()] are unchanged, and
    under every id the descriptor keeps its id and zone mask. *)
Theorem transition_state_frame (m : VGC_Manager) (i : N) (st : VGC_State) :
  let m' := transition_state m i st in
  dom (mheap m') = dom (mheap m) /\
  object_count m' = object_count m /\
  (forall k, zone_mask <$> mheap m' !! k = zone_mask <$> mheap m !! k) /\
  (forall k, id <$> mheap m' !! k = id <$> mheap m !! k).
Proof.
  intros m'. subst m'.
  assert (Hdom : dom (mheap (transition_state m i st)) = dom (mheap m)).
  { apply set_eq. intros k. rewrite !elem_of_dom, lookup_transition_state.
    destruct (decide (i = k)); [|done]. by rewrite fmap_is_Some. }
  split; [exact Hdom|]. split; [|split].
  - unfold object_count. by rewrite <- !size_dom, Hdom.
  - intros k. rewrite lookup_transition_state.
    destruct (decide (i = k)); [|done]. by destruct (mheap m !! k).
  - intros k. rewrite lookup_transition_state.
    destruct (decide (i = k)); [|done]. by destruct (mheap m !! k).
Qed.

(** ** Sweep engine, composed with the rest *)

Lemma callbacks_allocate (m : VGC_Manager) (i : N) (z : MemoryZone) (s : VGC_State) :
  pre_sweep_callbacks (allocate m i z s) = pre_sweep_callbacks m /\
  post_sweep_callbacks (allocate m i z s) = post_sweep_callbacks m.
Proof. unfold allocate. by destruct (mheap m !! i). Qed.

Lemma callbacks_transition_state (m : VGC_Manager) (i : N) (s : VGC_State) :
  pre_sweep_callbacks (transition_state m i s) = pre_sweep_callbacks m /\
  post_sweep_callbacks (transition_state m i s) = post_sweep_callbacks m.
Proof. unfold transition_state. by destruct (mheap m !! i). Qed.

Lemma callbacks_sweep (m : VGC_Manager) (p : Z) :
  pre_sweep_callbacks (outcome_state (sweep m p)) = pre_sweep_callbacks m /\
  post_sweep_callbacks (outcome_state (sweep m p)) = post_sweep_callbacks m.
Proof.
  unfold sweep. set (m0 := print m _).
  change (pre_sweep_callbacks m0) with (pre_sweep_callbacks m).
  pose proof (run_pre_sweep_frame (pre_sweep_callbacks m) 0 m0) as [Hf1 Hf1'].
  destruct (run_pre_sweep 0 (pre_sweep_callbacks m) m0) as [m1|m1];
    cbn [bind]; simpl in Hf1, Hf1'; [|done].
  set (ids := objects_to_reclaim (mheap m1) p).
  destruct (reclaim_frame ids m1) as (Hr1 & Hr2 & _).
  pose proof (run_post_sweep_frame (post_sweep_callbacks (reclaim m1 ids)) 0
                (length ids) (reclaim m1 ids)) as [Hf3 Hf3'].
  destruct (run_post_sweep 0 _ (length ids) (reclaim m1 ids)) as [m3|m3];
    cbn [bind]; simpl in Hf3, Hf3' |- *.
  - change (pre_sweep_callbacks (print m3 _)) with (pre_sweep_callbacks m3).
    change (post_sweep_callbacks (print m3 _)) with (post_sweep_callbacks m3).
    by rewrite Hf3, Hf3', Hr1, Hr2, Hf1, Hf1'.
  - by rewrite Hf3, Hf3', Hr1, Hr2, Hf1, Hf1'.
Qed.

Lemma display_rows_frame (l : list (N * VGC_Object)) (m : VGC_Manager) :
  let m' := foldl (fun acc '(id, obj) => print acc (status_row id obj)) m l in
  mheap m' = mheap m /\ cerr (env m') = cerr (env m) /\
  pre_sweep_callbacks m' = pre_sweep_callbacks m /\
  post_sweep_callbacks m' = post_sweep_callbacks m /\
  calls m' = calls m.
Proof.
  revert m. induction l as [|[k o] l IH]; intros m; cbn [foldl]; [done|].
  apply (IH (print m (status_row k o))).
Qed.

Lemma display_status_frame (m : VGC_Manager) :
  mheap (display_status m) = mheap m /\
  cerr (env (display_status m)) = cerr (env m) /\
  pre_sweep_callbacks (display_status m) = pre_sweep_callbacks m /\
  post_sweep_callbacks (display_status m) = post_sweep_callbacks m /\
  calls (display_status m) = calls m.
Proof.
  unfold display_status.
  destruct (Nat.eqb _ 0); [done|].
  destruct (count_zones _) as [[r g] b].
  match goal with
  | |- context [foldl ?f ?m0 ?l] =>
      destruct (display_rows_frame l m0) as (H1 & H2 & H3 & H4 & H5)
  end.
  repeat split.
  - rewrite mheap_print. exact H1.
  - exact H2.
  - exact H3.
  - exact H4.
  - exact H5.
Qed.

(** X11. With hooks that only observe the heap, after a [sweep(p)] that
    returned no IDLE and no EXPIRED descriptor is left, whatever the mask,
    and every descriptor that was ACTIVE or PERSIST is still there
    unchanged. *)
Theorem sweep_state_guarantees (m m' : VGC_Manager) (p : Z) :
  hooks_observe m ->
  sweep m p = Returned m' ->
  (forall k o, mheap m' !! k = Some o -> state o <> 0 /\ state o <> 7) /\
  (forall k o, mheap m !! k = Some o -> state o = 1 \/ state o = 4 ->
               mheap m' !! k = Some o).
Proof.
  intros Hobs Hret. destruct (sweep_returned m p m' Hobs Hret) as (Hh & _).
  rewrite Hh. split.
  - intros k o [_ Ha]%survivors_lookup. split; intros Hs.
    + by rewrite evaluate_liveness_idle in Ha.
    + by rewrite evaluate_liveness_expired in Ha.
  - intros k o Hk Hs. apply survivors_lookup. split; [done|].
    destruct Hs; [by apply evaluate_liveness_active
                 |by apply evaluate_liveness_persist].
Qed.

Lemma sweep_state_guarantees_witness :
  hooks_observe demo_manager /\
  sweep demo_manager 0 = Returned demo_swept /\
  mheap demo_swept !! 103%N = Some (mkObject 103 4 4).
Proof.
  split; [exact demo_hooks_observe|]. split; [exact demo_sweep_returned|].
  destruct (sweep_state_guarantees demo_manager demo_swept 0 demo_hooks_observe
              demo_sweep_returned) as [_ H].
  apply (H 103%N (mkObject 103 4 4)); [vm_compute; reflexivity|right; reflexivity].
Defined.

(** X12. With observing hooks, once a descriptor that is present has been
    moved by [transition_state], the next [sweep(p)] that returns decides by
    the new state alone: moved to IDLE or EXPIRED it is reclaimed, moved to
    ACTIVE or PERSIST it is kept with the new state, whatever its zone, its
    old state and the mask. *)
Theorem transition_then_sweep (m m' : VGC_Manager) (i : N) (o : VGC_Object)
    (st : VGC_State) (p : Z) :
  hooks_observe m ->
  mheap m !! i = Some o ->
  sweep (transition_state m i st) p = Returned m' ->
  (st = IDLE \/ st = EXPIRED -> mheap m' !! i = None) /\
  (st = ACTIVE \/ st = PERSIST ->
   mheap m' !! i = Some (with_state o (state_code st))).
Proof.
  intros Hobs Hi Hret.
  assert (Hobs' : hooks_observe (transition_state m i st)).
  { unfold hooks_observe.
    destruct (callbacks_transition_state m i st) as [-> ->]. exact Hobs. }
  destruct (sweep_returned _ p m' Hobs' Hret) as (Hh & _).
  assert (Hnew : mheap (transition_state m i st) !! i =
                 Some (with_state o (state_code st))).
  { rewrite lookup_transition_state, decide_True by done. by rewrite Hi. }
  rewrite Hh. split.
  - intros Hst. apply eq_None_not_Some. intros [o' [Ho' Ha]%survivors_lookup].
    rewrite Hnew in Ho'. injection Ho' as <-.
    destruct Hst as [-> | ->]; vm_compute in Ha; discriminate Ha.
  - intros Hst. apply survivors_lookup. split; [exact Hnew|].
    destruct Hst as [-> | ->];
      [by apply evaluate_liveness_active | by apply evaluate_liveness_persist].
Qed.

Lemma transition_then_sweep_witness :
  mheap demo_manager !! 103%N = Some (mkObject 103 4 4) /\
  mheap (outcome_state (sweep (transition_state demo_manager 103 EXPIRED) 7))
    !! 103%N = None.
Proof.
  assert (Hi : mheap demo_manager !! 103%N = Some (mkObject 103 4 4))
    by (vm_compute; reflexivity).
  assert (Hret : sweep (transition_state demo_manager 103 EXPIRED) 7 =
                 Returned (outcome_state
                             (sweep (transition_state demo_manager 103 EXPIRED) 7)))
    by (vm_compute; reflexivity).
  split; [exact Hi|].
  destruct (transition_then_sweep demo_manager _ 103 _ EXPIRED 7
              demo_hooks_observe Hi Hret) as [H _].
  apply H. right. reflexivity.
Defined.

(** X13. With observing hooks, a descriptor allocated with the default
    initial state is never reclaimed by the next sweep: after
    [allocate(id, zone)] and a [sweep(p)] that returns it is in the heap as
    allocated, for every zone and every mask. *)
Theorem allocate_default_survives_sweep (m m' : VGC_Manager) (i : N)
    (z : MemoryZone) (p : Z) :
  hooks_observe m ->
  sweep (allocate_default m i z) p = Returned m' ->
  mheap m' !! i = Some (mkObject i (zone_code z) (state_code ACTIVE)).
Proof.
  intros Hobs Hret. unfold allocate_default in Hret.
  assert (Hobs' : hooks_observe (allocate m i z ACTIVE)).
  { unfold hooks_observe.
    destruct (callbacks_allocate m i z ACTIVE) as [-> ->]. exact Hobs. }
  destruct (sweep_returned _ p m' Hobs' Hret) as (-> & _).
  apply survivors_lookup. split.
  - rewrite mheap_allocate. apply lookup_insert_eq.
  - by apply evaluate_liveness_active.
Qed.

Lemma allocate_default_survives_sweep_witness :
  hooks_observe demo_manager /\
  mheap (outcome_state (sweep (allocate_default demo_manager 106 GREEN) 0))
    !! 106%N = Some (mkObject 106 2 1).
Proof.
  split; [exact demo_hooks_observe|].
  apply (allocate_default_survives_sweep demo_manager _ 106 GREEN 0
           demo_hooks_observe).
  vm_compute. reflexivity.
Defined.

Lemma hooks_observe_after_sweep (m m' : VGC_Manager) (p : Z) :
  hooks_observe m -> sweep m p = Returned m' -> hooks_observe m'.
Proof.
  intros Hobs Hret. destruct (sweep_returned m p m' Hobs Hret) as (_ & H1 & H2 & _).
  unfold hooks_observe. by rewrite H1, H2.
Qed.

(** X14. With observing hooks, two sweeps under masks [p] and [q] leave
    exactly the descriptors that are alive under both, so the order of the
    two masks does not matter for the heap. *)
Theorem sweeps_commute (m m1 m2 n1 n2 : VGC_Manager) (p q : Z) :
  hooks_observe m ->
  sweep m p = Returned m1 -> sweep m1 q = Returned m2 ->
  sweep m q = Returned n1 -> sweep n1 p = Returned n2 ->
  mheap m2 = mheap n2 /\
  (forall k o, mheap m2 !! k = Some o <->
     mheap m !! k = Some o /\
     evaluate_liveness o p = true /\ evaluate_liveness o q = true).
Proof.
  intros Hobs Hp Hpq Hq Hqp.
  pose proof (hooks_observe_after_sweep _ _ _ Hobs Hp) as Hobs1.
  pose proof (hooks_observe_after_sweep _ _ _ Hobs Hq) as Hobs2.
  destruct (sweep_returned _ _ _ Hobs Hp) as (Hm1 & _).
  destruct (sweep_returned _ _ _ Hobs1 Hpq) as (Hm2 & _).
  destruct (sweep_returned _ _ _ Hobs Hq) as (Hn1 & _).
  destruct (sweep_returned _ _ _ Hobs2 Hqp) as (Hn2 & _).
  assert (Hboth : forall k o, mheap m2 !! k = Some o <->
            mheap m !! k = Some o /\
            evaluate_liveness o p = true /\ evaluate_liveness o q = true).
  { intros k o. rewrite Hm2, Hm1, !survivors_lookup. tauto. }
  split; [|exact Hboth].
  apply map_eq. intros k. apply option_eq. intros o.
  rewrite Hboth, Hn2, Hn1, !survivors_lookup. tauto.
Qed.

Lemma sweeps_commute_witness :
  hooks_observe demo_manager /\
  mheap (outcome_state (sweep demo_swept 6)) =
  mheap (outcome_state (sweep (outcome_state (sweep demo_manager 6)) 0)).
Proof.
  split; [exact demo_hooks_observe|].
  refine (proj1 (sweeps_commute demo_manager demo_swept _ _ _ 0 6
                   demo_hooks_observe demo_sweep_returned _ _ _));
    vm_compute; reflexivity.
Defined.

Lemma invoke_post_in_order_app (l1 l2 : list PostHook) (n : nat) (e : Env) :
  invoke_post_in_order (l1 ++ l2) n e =
  match invoke_post_in_order l1 n e with
  | Returned e1 => invoke_post_in_order l2 n e1
  | Threw e1 => Threw e1
  end.
Proof.
  revert e. induction l1 as [|g l1 IH]; intros e;
    cbn [invoke_post_in_order app]; [done|].
  destruct (g n e) as [e'|e']; [apply IH|done].
Qed.

Lemma invoke_post_in_order_heap (l : list PostHook) (n : nat) (e0 e1 : Env) :
  Forall post_hook_observes l ->
  invoke_post_in_order l n e0 = Returned e1 -> heap e1 = heap e0.
Proof.
  intros Hobs. revert e0.
  induction Hobs as [|g l Hg _ IH]; intros e0; cbn [invoke_post_in_order].
  - by intros [= <-].
  - specialize (Hg n e0). destruct (g n e0) as [e'|e']; [|done].
    cbn [outcome_state] in Hg. intros H. by rewrite (IH e' H).
Qed.

(** X15. A post-sweep callback that throws does not undo the collection.
    When, in this run, the pre-sweep callbacks return and a post-sweep
    callback throws after the ones registered before it have returned, each
    called with the number of candidates, then [sweep(p)] is left by the
    exception in exactly the environment the throwing callback left: the
    later post-sweep callbacks are not called and the closing line is not
    printed.  With observing hooks the heap then holds exactly the
    descriptors alive under [p], and the count the callbacks were given is
    the heap size before the sweep minus the heap size after it. *)
Theorem sweep_post_hook_throws (m : VGC_Manager) (p : Z)
    (l1 l2 : list PostHook) (f : PostHook) (e_pre e1 e : Env) :
  post_sweep_callbacks m = l1 ++ f :: l2 ->
  invoke_pre_in_order (pre_sweep_callbacks m) (sweep_start m) = Returned e_pre ->
  invoke_post_in_order l1 (length (selected e_pre p)) (reclaimed_env m e_pre p)
    = Returned e1 ->
  f (length (selected e_pre p)) e1 = Threw e ->
  exists m', sweep m p = Threw m' /\
             env m' = e /\
             (hooks_observe m ->
              mheap m' = survivors (mheap m) p /\
              length (selected e_pre p)
                = (size (mheap m) - size (mheap m'))%nat).
Proof.
  intros Hsplit Hpre Hl1 Hf.
  pose proof (sweep_env m p) as He.
  rewrite Hpre, Hsplit, invoke_post_in_order_app, Hl1 in He.
  cbn [invoke_post_in_order] in He. rewrite Hf in He.
  destruct (sweep m p) as [m'|m']; cbn [outcome_env] in He; [discriminate He|].
  injection He as He. exists m'. split; [done|]. split; [exact He|].
  intros [Hobs Hobs'].
  destruct (selected_observed m p e_pre Hobs Hpre) as (_ & Hsel & Hre).
  assert (Hh : mheap m' = survivors (mheap m) p).
  { unfold mheap at 1. rewrite He, <- Hre.
    rewrite Hsplit in Hobs'.
    apply Forall_app in Hobs' as [Hobs1 Hobs2].
    apply Forall_cons in Hobs2 as [Hfo _].
    specialize (Hfo (length (selected e_pre p)) e1).
    rewrite Hf in Hfo. cbn [outcome_state] in Hfo. rewrite Hfo.
    by apply (invoke_post_in_order_heap l1 (length (selected e_pre p))). }
  split; [exact Hh|].
  rewrite Hsel, Hh. pose proof (selection_count (mheap m) p). lia.
Qed.

Lemma sweep_post_hook_throws_witness :
  exists e_pre e1,
    invoke_pre_in_order [demo_pre_hook]
      (sweep_start (register_post_sweep_callback demo_manager throwing_post_hook))
      = Returned e_pre /\
    invoke_post_in_order [demo_post_hook] 2
      (reclaimed_env (register_post_sweep_callback demo_manager throwing_post_hook)
                     e_pre 0)
      = Returned e1 /\
    exists m',
      sweep (register_post_sweep_callback demo_manager throwing_post_hook) 0
        = Threw m' /\
      env m' = e1.
Proof.
  eexists. eexists.
  split; [reflexivity|]. split; [reflexivity|].
  destruct (sweep_post_hook_throws
              (register_post_sweep_callback demo_manager throwing_post_hook) 0
              [demo_post_hook] [] throwing_post_hook _ _ _
              eq_refl eq_refl eq_refl eq_refl) as (m' & H1 & H2 & _).
  exists m'. split; [exact H1 | exact H2].
Defined.

(** X16. With observing hooks, a heap in which every descriptor is alive
    under [p] -- an empty heap in particular -- is left unchanged by
    [sweep(p)], returning or not.  When the sweep returns, the environment
    it ends in is the one obtained by calling the pre-sweep callbacks in
    order, printing "No objects eligible for reclamation.", calling the
    post-sweep callbacks in order with a reclaimed count of zero, and
    printing the closing line. *)
Theorem sweep_nothing_to_reclaim (m : VGC_Manager) (p : Z) :
  hooks_observe m ->
  (forall k o, mheap m !! k = Some o -> evaluate_liveness o p = true) ->
  mheap (outcome_state (sweep m p)) = mheap m /\
  (forall m', sweep m p = Returned m' ->
     exists e_pre e_post,
       invoke_pre_in_order (pre_sweep_callbacks m) (sweep_start m)
         = Returned e_pre /\
       invoke_post_in_order (post_sweep_callbacks m) 0
         (env_print e_pre ("No objects eligible for reclamation." +:+ nl)%string)
         = Returned e_post /\
       env m' = env_print e_post sweep_footer).
Proof.
  intros Hobs Halive.
  assert (Hnil : objects_to_reclaim (mheap m) p = []).
  { apply elem_of_nil_inv. intros k (o & Hk & Hd)%elem_of_objects_to_reclaim.
    rewrite (Halive k o Hk) in Hd. discriminate Hd. }
  pose proof (survivors_id _ _ Hnil) as Hid.
  split.
  - destruct (sweep_outcome_heap m p Hobs) as [->| ->]; [done|exact Hid].
  - intros m' Hret.
    pose proof (sweep_env m p) as He. rewrite Hret in He. cbn [outcome_env] in He.
    destruct (invoke_pre_in_order (pre_sweep_callbacks m) (sweep_start m))
      as [e_pre|e_pre] eqn:Hpre; [|discriminate He].
    destruct (selected_observed m p e_pre (proj1 Hobs) Hpre) as (_ & Hsel & _).
    rewrite Hnil in Hsel.
    assert (Hre : reclaimed_env m e_pre p =
                  env_print e_pre ("No objects eligible for reclamation." +:+ nl)%string).
    { unfold reclaimed_env. rewrite Hsel. reflexivity. }
    rewrite Hsel, Hre in He. cbn [length] in He.
    destruct (invoke_post_in_order (post_sweep_callbacks m) 0 _)
      as [e_post|e_post] eqn:Hpost; [|discriminate He].
    injection He as He. exists e_pre, e_post. done.
Qed.

Lemma demo_swept_all_alive :
  forall k o, mheap demo_swept !! k = Some o -> evaluate_liveness o 0 = true.
Proof.
  intros k o Hk.
  destruct (sweep_returned demo_manager 0 demo_swept demo_hooks_observe
              demo_sweep_returned) as (Hh & _).
  rewrite Hh in Hk. by apply survivors_lookup in Hk as [_ Ha].
Qed.

Lemma demo_swept_hooks_observe : hooks_observe demo_swept.
Proof. split; repeat constructor. Qed.

Lemma sweep_nothing_to_reclaim_witness :
  hooks_observe demo_swept /\
  object_count demo_swept = 3%nat /\
  mheap (outcome_state (sweep demo_swept 0)) = mheap demo_swept /\
  cout (env (outcome_state (sweep demo_swept 0))) =
    (cout (env demo_swept) +:+ sweep_header +:+
     "[Pre-sweep] Pausing application threads..." +:+ nl +:+
     "No objects eligible for reclamation." +:+ nl +:+
     "[Post-sweep] Resuming application threads. 0 objects reclaimed." +:+ nl +:+
     sweep_footer)%string.
Proof.
  split; [exact demo_swept_hooks_observe|].
  split; [vm_compute; reflexivity|].
  destruct (sweep_nothing_to_reclaim demo_swept 0 demo_swept_hooks_observe
              demo_swept_all_alive) as [Hheap Henv].
  split; [exact Hheap|].
  assert (Hret : sweep demo_swept 0 = Returned (outcome_state (sweep demo_swept 0)))
    by (vm_compute; reflexivity).
  destruct (Henv _ Hret) as (e_pre & e_post & Hpre & Hpost & He).
  rewrite He.
  cbn [pre_sweep_callbacks post_sweep_callbacks demo_swept] in Hpre, Hpost.
  vm_compute in Hpre. injection Hpre as <-.
  vm_compute in Hpost. injection Hpost as <-.
  vm_compute. reflexivity.
Defined.

(** ** The member functions on cast enum values *)

Lemma allocate_as_cast (m : VGC_Manager) (i : N) (z : MemoryZone) (s : VGC_State) :
  allocate m i z s = allocate_cast m i (zone_code z) (state_code s).
Proof. reflexivity. Qed.

Lemma transition_state_as_cast (m : VGC_Manager) (i : N) (s : VGC_State) :
  transition_state m i s = transition_state_cast m i (state_code s).
Proof. reflexivity. Qed.

Lemma mheap_allocate_cast (m : VGC_Manager) (i : N) (z s : Z) :
  mheap (allocate_cast m i z s) = <[i := mkObject i z s]> (mheap m).
Proof. unfold allocate_cast. by destruct (mheap m !! i). Qed.

Lemma callbacks_allocate_cast (m : VGC_Manager) (i : N) (z s : Z) :
  pre_sweep_callbacks (allocate_cast m i z s) = pre_sweep_callbacks m /\
  post_sweep_callbacks (allocate_cast m i z s) = post_sweep_callbacks m.
Proof. unfold allocate_cast. by destruct (mheap m !! i). Qed.

Lemma lookup_transition_state_cast (m : VGC_Manager) (k j : N) (st : Z) :
  mheap (transition_state_cast m k st) !! j =
  if decide (k = j)
  then (fun o => with_state o st) <$> mheap m !! j
  else mheap m !! j.
Proof.
  unfold transition_state_cast.
  destruct (mheap m !! k) as [o|] eqn:Hk.
  - rewrite mheap_print, mheap_set_heap.
    destruct (decide (k = j)) as [<-|Hne].
    + by rewrite lookup_insert_eq, Hk.
    + by rewrite lookup_insert_ne.
  - rewrite mheap_eprint. destruct (decide (k = j)) as [<-|Hne]; [|done].
    by rewrite Hk.
Qed.

Lemma callbacks_transition_state_cast (m : VGC_Manager) (i : N) (s : Z) :
  pre_sweep_callbacks (transition_state_cast m i s) = pre_sweep_callbacks m /\
  post_sweep_callbacks (transition_state_cast m i s) = post_sweep_callbacks m.
Proof. unfold transition_state_cast. by destruct (mheap m !! i). Qed.

(** ** Hook registry *)

Lemma run_pre_sweep_app (l1 l2 : list PreHook) (k : nat) (m : VGC_Manager) :
  run_pre_sweep k (l1 ++ l2) m =
  (m1 <- run_pre_sweep k l1 m ;; run_pre_sweep (k + length l1) l2 m1).
Proof.
  revert k m. induction l1 as [|g l1 IH]; intros k m; cbn [run_pre_sweep app length].
  - cbn [bind]. by rewrite Nat.add_0_r.
  - destruct (g _) as [e|e]; [|done].
    rewrite IH. by rewrite Nat.add_succ_comm.
Qed.

Lemma run_post_sweep_app (l1 l2 : list PostHook) (k n : nat) (m : VGC_Manager) :
  run_post_sweep k (l1 ++ l2) n m =
  (m1 <- run_post_sweep k l1 n m ;; run_post_sweep (k + length l1) l2 n m1).
Proof.
  revert k m. induction l1 as [|g l1 IH]; intros k m; cbn [run_post_sweep app length].
  - cbn [bind]. by rewrite Nat.add_0_r.
  - destruct (g _ _) as [e|e]; [|done].
    rewrite IH. by rewrite Nat.add_succ_comm.
Qed.

(** X17. Callbacks run in the order they were registered.  A callback
    registered after the others is called after them, at the next position,
    on the state they left -- and not at all when one of them throws; this
    holds for the pre-sweep and for the post-sweep list.  Registering does
    not touch the heap or the output. *)
Theorem registered_last_runs_last (m m0 : VGC_Manager) (f : PreHook)
    (g : PostHook) (n : nat) :
  run_pre_sweep 0 (pre_sweep_callbacks (register_pre_sweep_callback m f)) m0 =
    (m1 <- run_pre_sweep 0 (pre_sweep_callbacks m) m0 ;;
     run_pre_sweep (length (pre_sweep_callbacks m)) [f] m1) /\
  run_post_sweep 0 (post_sweep_callbacks (register_post_sweep_callback m g)) n m0 =
    (m1 <- run_post_sweep 0 (post_sweep_callbacks m) n m0 ;;
     run_post_sweep (length (post_sweep_callbacks m)) [g] n m1) /\
  env (register_pre_sweep_callback m f) = env m /\
  env (register_post_sweep_callback m g) = env m.
Proof.
  split; [|split; [|done]].
  - cbn [register_pre_sweep_callback pre_sweep_callbacks].
    by rewrite run_pre_sweep_app.
  - cbn [register_post_sweep_callback post_sweep_callbacks].
    by rewrite run_post_sweep_app.
Qed.

(** X18. Only registration changes the callback lists, and it only appends:
    after any call of a member function -- a sweep that throws included --
    each list is the list before, with the registered callback added at the
    end when the call was the matching registration. *)
Theorem callbacks_only_grow_by_registration (m : VGC_Manager) (c : Call) :
  pre_sweep_callbacks (perform m c) =
    match c with
    | CallRegisterPre f => pre_sweep_callbacks m ++ [f]
    | _ => pre_sweep_callbacks m
    end /\
  post_sweep_callbacks (perform m c) =
    match c with
    | CallRegisterPost g => post_sweep_callbacks m ++ [g]
    | _ => post_sweep_callbacks m
    end.
Proof.
  destruct c as [i z s|i s|p| |f|g]; cbn [perform].
  - apply callbacks_allocate_cast.
  - apply callbacks_transition_state_cast.
  - apply callbacks_sweep.
  - destruct (display_status_frame m) as (_ & _ & H1 & H2 & _). by rewrite H1, H2.
  - done.
  - done.
Qed.

(** ** Clients *)

Lemma perform_hooks_observe (m : VGC_Manager) (c : Call) :
  hooks_observe m -> call_observes c -> hooks_observe (perform m c).
Proof.
  intros [Hpre Hpost] Hc. unfold hooks_observe.
  destruct c as [i z s|i s|p| |f|g]; cbn [perform].
  - by destruct (callbacks_allocate_cast m i z s) as [-> ->].
  - by destruct (callbacks_transition_state_cast m i s) as [-> ->].
  - by destruct (callbacks_sweep m p) as [-> ->].
  - destruct (display_status_frame m) as (_ & _ & -> & -> & _). done.
  - split; [|done]. apply Forall_app. split; [done|]. by constructor.
  - split; [done|]. apply Forall_app. split; [done|]. by constructor.
Qed.

(** Where a descriptor found after a call comes from. *)
Lemma perform_lookup (m : VGC_Manager) (c : Call) (k : N) (o : VGC_Object) :
  hooks_observe m ->
  mheap (perform m c) !! k = Some o ->
  (exists z s, c = CallAllocate k z s /\ o = mkObject k z s) \/
  (exists s o0, c = CallTransition k s /\ mheap m !! k = Some o0 /\
                o = with_state o0 s) \/
  mheap m !! k = Some o.
Proof.
  intros Hobs. destruct c as [i z s|i s|p| |f|g]; cbn [perform].
  - rewrite mheap_allocate_cast. destruct (decide (i = k)) as [<-|Hne].
    + rewrite lookup_insert_eq. intros [= <-]. left. eauto.
    + rewrite lookup_insert_ne by done. auto.
  - rewrite lookup_transition_state_cast. destruct (decide (i = k)) as [<-|Hne]; [|auto].
    destruct (mheap m !! i) as [o0|] eqn:Hi; [|done].
    intros [= <-]. right. left. eauto.
  - destruct (sweep_outcome_heap m p Hobs) as [->| ->]; [auto|].
    intros [Hk _]%survivors_lookup. auto.
  - destruct (display_status_frame m) as (-> & _). auto.
  - auto.
  - auto.
Qed.

Lemma perform_heap_valid (m : VGC_Manager) (c : Call) :
  hooks_observe m -> call_named c ->
  heap_valid (mheap m) -> heap_valid (mheap (perform m c)).
Proof.
  intros Hobs Hn Hv k o Hk.
  destruct (perform_lookup m c k o Hobs Hk)
    as [(z & s & -> & ->)|[(s & o0 & -> & Hk0 & ->)|Hk0]].
  - destruct Hn as [[z' ->] [s' ->]].
    repeat split; cbn [id zone_mask state].
    + destruct z'; cbn; auto.
    + destruct s'; cbn; lia.
    + destruct s'; cbn; lia.
  - destruct Hn as [s' ->]. destruct (Hv k o0 Hk0) as (Hid & Hz & _).
    repeat split; cbn [with_state id zone_mask state]; try done.
    + destruct s'; cbn; lia.
    + destruct s'; cbn; lia.
  - by apply Hv.
Qed.

Lemma perform_all_valid (cs : list Call) (m : VGC_Manager) :
  Forall call_observes cs -> Forall call_named cs ->
  heap_valid (mheap m) -> hooks_observe m ->
  heap_valid (mheap (foldl perform m cs)) /\ hooks_observe (foldl perform m cs).
Proof.
  intros Hcs. revert m.
  induction Hcs as [|c cs Hc _ IH]; intros m Hns Hv Hobs; cbn [foldl]; [done|].
  apply Forall_cons in Hns as [Hn Hns].
  apply IH; [done| |].
  - by apply perform_heap_valid.
  - by apply perform_hooks_observe.
Qed.

(** X19. As long as a client passes only named enumerators as zone and
    state arguments and registers only observing callbacks, whatever it
    calls, in whatever order, starting from a fresh manager: every
    descriptor in the heap is filed under its own id, has a one-hot zone
    mask (RED, GREEN or BLUE) and a state in [0,7], and the registered
    callbacks are all observing.  The restriction to named enumerators is
    needed: [allocate] stores a cast value unchecked, and after
    [allocate(7, static_cast<MemoryZone>(3), static_cast<VGC_State>(9))]
    the heap holds a descriptor with zone mask 3 and state 9. *)
Theorem session_heap_valid (cs : list Call) :
  (Forall call_observes cs -> Forall call_named cs ->
   heap_valid (mheap (session cs)) /\ hooks_observe (session cs)) /\
  mheap (session [CallAllocate 7 3 9]) !! 7%N = Some (mkObject 7 3 9) /\
  ~ heap_valid (mheap (session [CallAllocate 7 3 9])).
Proof.
  split; [|split].
  - intros Hcs Hns. unfold session. apply perform_all_valid; [done|done| |].
    + intros k o Hk. change (mheap new_manager) with (∅ : gmap N VGC_Object) in Hk.
      by rewrite lookup_empty in Hk.
    + split; constructor.
  - vm_compute. reflexivity.
  - intros Hv.
    assert (Hk : mheap (session [CallAllocate 7 3 9]) !! 7%N = Some (mkObject 7 3 9))
      by (vm_compute; reflexivity).
    destruct (Hv _ _ Hk) as (_ & Hz & _). cbn [zone_mask] in Hz. lia.
Qed.

Lemma demo_calls_observe : Forall call_observes demo_calls.
Proof. repeat constructor. Qed.

Lemma demo_calls_named : Forall call_named demo_calls.
Proof.
  unfold demo_calls.
  repeat (apply Forall_cons; split;
          [first [exact I | split; eexists; reflexivity | eexists; reflexivity]|]).
  apply Forall_nil. done.
Qed.

Lemma session_heap_valid_witness :
  Forall call_observes demo_calls /\ Forall call_named demo_calls /\
  heap_valid (mheap (session demo_calls)).
Proof.
  split; [exact demo_calls_observe|]. split; [exact demo_calls_named|].
  exact (proj1 (proj1 (session_heap_valid demo_calls)
                  demo_calls_observe demo_calls_named)).
Defined.

(** X20. The collector never invents a descriptor: whatever a client calls,
    with observing callbacks, an id found in the heap was the argument of
    one of its [allocate] calls. *)
Theorem session_ids_were_allocated (cs : list Call) (k : N) :
  Forall call_observes cs ->
  is_Some (mheap (session cs) !! k) ->
  exists z s, CallAllocate k z s ∈ cs.
Proof.
  intros Hcs. unfold session.
  assert (Hgen : forall m, hooks_observe m ->
            is_Some (mheap (foldl perform m cs) !! k) ->
            is_Some (mheap m !! k) \/ exists z s, CallAllocate k z s ∈ cs).
  { induction Hcs as [|c cs Hc _ IH]; intros m Hobs; cbn [foldl]; [auto|].
    intros Hk.
    destruct (IH (perform m c) (perform_hooks_observe m c Hobs Hc) Hk)
      as [[o Ho]|(z & s & Hin)].
    - destruct (perform_lookup m c k o Hobs Ho)
        as [(z & s & -> & _)|[(s & o0 & _ & Hk0 & _)|Hk0]].
      + right. exists z, s. left.
      + left. eauto.
      + left. eauto.
    - right. exists z, s. by right. }
  intros Hk. destruct (Hgen new_manager) as [[o Ho]|H]; [split; constructor|done| |done].
  change (mheap new_manager) with (∅ : gmap N VGC_Object) in Ho.
  by rewrite lookup_empty in Ho.
Qed.

Lemma session_ids_were_allocated_witness :
  Forall call_observes demo_calls /\
  is_Some (mheap (session demo_calls) !! 107%N) /\
  exists z s, CallAllocate 107 z s ∈ demo_calls.
Proof.
  assert (Hk : is_Some (mheap (session demo_calls) !! 107%N))
    by (vm_compute; eexists; reflexivity).
  split; [exact demo_calls_observe|]. split; [exact Hk|].
  exact (session_ids_were_allocated demo_calls 107 demo_calls_observe Hk).
Defined.

(** ** Reporting surface *)

Section ZoneCounts.

Local Abbreviation in_zone c :=
  (fun kv : N * VGC_Object => zone_mask kv.2 = c).

Lemma count_zones_loop (l : list (N * VGC_Object)) (r g b : nat) :
  foldl (fun '(red_count, green_count, blue_count) '(_, obj) =>
           if zone_mask obj =? zone_code RED
           then (S red_count, green_count, blue_count)
           else if zone_mask obj =? zone_code GREEN
           then (red_count, S green_count, blue_count)
           else if zone_mask obj =? zone_code BLUE
           then (red_count, green_count, S blue_count)
           else (red_count, green_count, blue_count))
        (r, g, b) l
  = ((r + length (filter (in_zone 1%Z) l))%nat,
     (g + length (filter (in_zone 2%Z) l))%nat,
     (b + length (filter (in_zone 4%Z) l))%nat).
Proof.
revert r g b. induction l as [|[k o] l IH]; intros r g b; cbn [foldl].
- rewrite !filter_nil. cbn [length]. by rewrite !Nat.add_0_r.
- cbn [zone_code]. rewrite !filter_cons. cbn [snd].
  destruct (Z.eqb_spec (zone_mask o) 1) as [E1|N1];
    [|destruct (Z.eqb_spec (zone_mask o) 2) as [E2|N2];
      [|destruct (Z.eqb_spec (zone_mask o) 4) as [E4|N4]]];
    rewrite IH; repeat case_decide; try lia;
    cbn [length]; by rewrite ?Nat.add_succ_comm.
Qed.

Lemma zone_filters_partition (l : list (N * VGC_Object)) :
  (length (filter (in_zone 1%Z) l) + length (filter (in_zone 2%Z) l) +
   length (filter (in_zone 4%Z) l) <= length l)%nat /\
  (Forall (fun kv => zone_mask kv.2 = 1 \/ zone_mask kv.2 = 2 \/ zone_mask kv.2 = 4) l ->
   (length (filter (in_zone 1%Z) l) + length (filter (in_zone 2%Z) l) +
    length (filter (in_zone 4%Z) l))%nat = length l).
Proof.
induction l as [|[k o] l [IH1 IH2]]; [done|].
rewrite !filter_cons. cbn [snd].
split.
- destruct (decide (zone_mask o = 1)), (decide (zone_mask o = 2)),
    (decide (zone_mask o = 4)); cbn [length]; lia.
- intros [Ho Hl]%Forall_cons. specialize (IH2 Hl). cbn [snd] in Ho.
  destruct (decide (zone_mask o = 1)), (decide (zone_mask o = 2)),
    (decide (zone_mask o = 4)); cbn [length]; lia.
Qed.

End ZoneCounts.

(** X21. The zone distribution that [display_status] prints: each of the
    three counters is the number of descriptors with exactly that zone mask;
    together they never exceed the total it prints, and they add up to it
    whenever every descriptor has a one-hot zone mask (a descriptor with any
    other mask is counted in the total and in no zone). *)
Theorem zone_distribution_counts (h : gmap N VGC_Object) :
  count_zones h =
    (size (filter (fun kv : N * VGC_Object => zone_mask kv.2 = 1) h),
     size (filter (fun kv : N * VGC_Object => zone_mask kv.2 = 2) h),
     size (filter (fun kv : N * VGC_Object => zone_mask kv.2 = 4) h)) /\
  (let '(red_count, green_count, blue_count) := count_zones h in
   (red_count + green_count + blue_count <= size h)%nat /\
   (heap_valid h -> (red_count + green_count + blue_count)%nat = size h)).
Proof.
  unfold count_zones. rewrite count_zones_loop. cbn [Nat.add].
  split.
  - by rewrite <- !length_map_to_list, !map_to_list_filter_perm.
  - destruct (zone_filters_partition (map_to_list h)) as [Hle Heq].
    rewrite length_map_to_list in Hle, Heq. split; [exact Hle|].
    intros Hv. apply Heq, Forall_forall.
    intros [k o] Hin%elem_of_map_to_list. by destruct (Hv k o Hin) as (_ & Hz & _).
Qed.

Lemma zone_distribution_counts_witness :
  heap_valid (mheap (session demo_calls)) /\
  count_zones (mheap (session demo_calls)) = (2, 3, 1)%nat /\
  (2 + 3 + 1)%nat = size (mheap (session demo_calls)).
Proof.
  assert (Hv : heap_valid (mheap (session demo_calls))).
  { apply perform_all_valid;
      [exact demo_calls_observe|exact demo_calls_named| |split; constructor].
    intros k o Hk. change (mheap new_manager) with (∅ : gmap N VGC_Object) in Hk.
    by rewrite lookup_empty in Hk. }
  split; [exact Hv|]. split; [vm_compute; reflexivity|].
  pose proof (proj2 (zone_distribution_counts (mheap (session demo_calls)))) as H.
  exact (proj2 H Hv).
Defined.

(** * Properties of the checksum kernels *)

Section ShortArithmetic.

Lemma to_short_range (x : Z) : -32768 <= to_short x <= 32767.
Proof. unfold to_short. pose proof (Z.mod_pos_bound (x + 32768) 65536). lia. Qed.

Lemma to_short_small (x : Z) : -32768 <= x <= 32767 -> to_short x = x.
Proof. intros H. unfold to_short. rewrite Z.mod_small; lia. Qed.

Lemma to_short_add_l (a b : Z) : to_short (to_short a + b) = to_short (a + b).
Proof.
unfold to_short. f_equal.
replace ((a + 32768) mod 65536 - 32768 + b + 32768)
  with ((a + 32768) mod 65536 + b) by lia.
rewrite Z.add_mod_idemp_l by lia. f_equal. lia.
Qed.

Lemma to_short_add_r (a b : Z) : to_short (a + to_short b) = to_short (a + b).
Proof. by rewrite Z.add_comm, to_short_add_l, Z.add_comm. Qed.

End ShortArithmetic.

Section LoopChunk.

Local Abbreviation term := (fun i : Z => (2 * i + 1) mod 32767).

Lemma loop_iter_sum (n : nat) (i acc : Z) :
  0 <= i -> i + Z.of_nat n <= 2 ^ 63 ->
  loop_iter n i (to_short acc) = to_short (acc + sum_from term i n).
Proof.
revert i acc. induction n as [|n IH]; intros i acc Hi Hn; cbn [loop_iter sum_from].
- by rewrite Z.add_0_r.
- unfold size_t_wrap.
  change (2 ^ 63) with 9223372036854775808 in Hn.
  change (2 ^ 64) with 18446744073709551616.
  rewrite (Z.mod_small (2 * i + 1)) by lia.
  pose proof (Z.mod_pos_bound (2 * i + 1) 32767).
  rewrite (to_short_small ((2 * i + 1) mod 32767)) by lia.
  rewrite to_short_add_l, IH by lia. f_equal. lia.
Qed.

Lemma loop_iter_shift (n : nat) (i a : Z) :
  loop_iter n i (to_short a) = to_short (a + loop_iter n i 0).
Proof.
revert i a. induction n as [|n IH]; intros i a; cbn [loop_iter].
- by rewrite Z.add_0_r.
- rewrite to_short_add_l, !IH, to_short_add_r. f_equal. lia.
Qed.

Lemma loop_iter_app (n1 n2 : nat) (i acc : Z) :
  loop_iter (n1 + n2) i acc = loop_iter n2 (i + Z.of_nat n1) (loop_iter n1 i acc).
Proof.
revert i acc. induction n1 as [|n1 IH]; intros i acc; cbn [loop_iter Nat.add].
- f_equal. lia.
- rewrite IH. f_equal. lia.
Qed.

Lemma loop_iter_short (n : nat) (i : Z) : to_short (loop_iter n i 0) = loop_iter n i 0.
Proof.
destruct n as [|n]; [done|]. cbn [loop_iter].
rewrite loop_iter_shift. apply to_short_small, to_short_range.
Qed.

Lemma sum_odd (n : nat) (i : Z) :
  0 <= i -> i + Z.of_nat n <= 16383 ->
  sum_from term i n = (i + Z.of_nat n) * (i + Z.of_nat n) - i * i.
Proof.
revert i. induction n as [|n IH]; intros i Hi Hn; cbn [sum_from].
- replace (i + Z.of_nat 0) with i by lia. lia.
- rewrite IH by lia. rewrite Z.mod_small by lia. nia.
Qed.

End LoopChunk.

(** X22. [loop_chunk(begin, end)] is the exact sum of [(2i+1) mod 32767]
    over [begin <= i < end], reduced to 16 bits: the narrowing to [short] at
    every turn and the unsigned wrap of [2*i+1] lose nothing (indices below
    2^63).  An empty or reversed range gives 0. *)
Theorem loop_chunk_is_wrapped_sum (begin end_ : Z) :
  0 <= begin -> end_ <= 2 ^ 63 ->
  loop_chunk begin end_ =
    to_short (sum_from (fun i => (2 * i + 1) mod 32767) begin
                       (Z.to_nat (end_ - begin))) /\
  (end_ <= begin -> loop_chunk begin end_ = 0).
Proof.
  intros Hb He. unfold loop_chunk.
  change (2 ^ 63) with 9223372036854775808 in He.
  assert (Hempty : end_ <= begin -> Z.to_nat (end_ - begin) = O) by lia.
  split.
  - destruct (Z.le_gt_cases end_ begin) as [Hle|Hgt].
    + by rewrite (Hempty Hle).
    + change (loop_iter (Z.to_nat (end_ - begin)) begin 0)
        with (loop_iter (Z.to_nat (end_ - begin)) begin (to_short 0)).
      apply loop_iter_sum; [done|].
      change (2 ^ 63) with 9223372036854775808. lia.
  - intros Hle. by rewrite (Hempty Hle).
Qed.

Lemma loop_chunk_is_wrapped_sum_witness :
  0 <= 3 /\ 6 <= 2 ^ 63 /\ loop_chunk 3 6 = to_short (7 + (9 + (11 + 0))).
Proof.
  assert (Hb : 0 <= 3) by lia. assert (He : 6 <= 2 ^ 63) by lia.
  split; [exact Hb|]. split; [exact He|].
  exact (proj1 (loop_chunk_is_wrapped_sum 3 6 Hb He)).
Defined.

(** X23. Chunks add up: for [begin <= mid <= end] the checksum of the whole
    range is the 16-bit sum of the checksums of the two parts, so a range
    may be split into partitions and the partial checksums combined. *)
Theorem loop_chunk_split (begin mid end_ : Z) :
  begin <= mid <= end_ ->
  loop_chunk begin end_ =
    to_short (loop_chunk begin mid + loop_chunk mid end_).
Proof.
  intros [H1 H2]. unfold loop_chunk.
  replace (Z.to_nat (end_ - begin))
    with (Z.to_nat (mid - begin) + Z.to_nat (end_ - mid))%nat by lia.
  rewrite loop_iter_app.
  replace (begin + Z.of_nat (Z.to_nat (mid - begin))) with mid by lia.
  rewrite <- (loop_iter_short (Z.to_nat (mid - begin)) begin).
  rewrite loop_iter_shift. by rewrite to_short_add_l.
Qed.

Lemma loop_chunk_split_witness :
  0 <= 120000 <= 200000 /\
  loop_chunk 0 200000 = to_short (loop_chunk 0 120000 + loop_chunk 120000 200000).
Proof.
  assert (H : 0 <= 120000 <= 200000) by lia.
  split; [exact H|]. exact (loop_chunk_split 0 120000 200000 H).
Defined.

(** X24. Up to 16383 turns from index 0 no term is reduced by the modulus,
    and [loop_chunk(0, n)] is the square of [n] reduced to 16 bits. *)
Theorem loop_chunk_square (n : Z) :
  0 <= n <= 16383 -> loop_chunk 0 n = to_short (n * n).
Proof.
  intros Hn. unfold loop_chunk.
  change (loop_iter (Z.to_nat (n - 0)) 0 0)
    with (loop_iter (Z.to_nat (n - 0)) 0 (to_short 0)).
  rewrite loop_iter_sum; [|done|change (2 ^ 63) with 9223372036854775808; lia].
  rewrite sum_odd by lia. f_equal. lia.
Qed.

Lemma loop_chunk_square_witness :
  0 <= 100 <= 16383 /\ loop_chunk 0 100 = to_short (100 * 100).
Proof.
  assert (H : 0 <= 100 <= 16383) by lia.
  split; [exact H|]. exact (loop_chunk_square 100 H).
Defined.

Section AccumulatorFacts.

Variables (mul add : Z).
Hypotheses (Hmul : 0 <= mul) (Hadd : 0 <= add).

Local Abbreviation term := (fun d : Z => (d * mul + add) mod 32767).

Lemma int_ok_true (x : Z) : -2147483648 <= x <= 2147483647 -> int_ok x = true.
Proof. intros H. unfold int_ok. apply andb_true_iff. split; lia. Qed.

Lemma step_term_in_range (d limit : Z) :
  0 <= d <= limit -> limit * mul + add <= 2147483647 ->
  step_term mul add d = Some (term d).
Proof using Hmul Hadd.
intros Hd Hlim. unfold step_term.
assert (d * mul <= limit * mul) by nia.
rewrite !int_ok_true by nia. cbn [andb].
by rewrite Z.rem_mod_nonneg by nia.
Qed.

Lemma accumulate_sum (n fuel : nat) (depth limit acc : Z) :
  0 <= depth -> limit = depth + Z.of_nat n ->
  limit * mul + add <= 2147483647 -> limit <= 2147483647 ->
  (n <= fuel)%nat ->
  accumulate mul add fuel depth limit (to_short acc) =
    Done (to_short (acc + sum_from term depth n)).
Proof using Hmul Hadd.
revert fuel depth acc.
induction n as [|n IH]; intros fuel depth acc Hd Hl Hlm Hli Hf.
- replace limit with depth by lia. cbn [sum_from].
  destruct fuel; cbn [accumulate]; rewrite Z.eqb_refl, Z.add_0_r; done.
- destruct fuel as [|fuel]; [lia|]. cbn [accumulate sum_from].
  destruct (Z.eqb_spec depth limit) as [E|_]; [lia|].
  rewrite (step_term_in_range depth limit) by lia.
  rewrite int_ok_true by lia.
  pose proof (Z.mod_pos_bound (depth * mul + add) 32767).
  rewrite (to_short_small ((depth * mul + add) mod 32767)) by lia.
  rewrite IH by lia. f_equal. by rewrite <- Z.add_assoc, to_short_add_l.
Qed.

Lemma accumulate_chunk (fuel : nat) (chunk : Z) :
  0 <= chunk -> chunk * mul + add <= 2147483647 -> chunk <= 2147483647 ->
  (Z.to_nat chunk <= fuel)%nat ->
  accumulate mul add fuel 0 chunk 0 =
    Done (to_short (sum_from term 0 (Z.to_nat chunk))).
Proof using Hmul Hadd.
intros Hc Hlm Hli Hf.
change (accumulate mul add fuel 0 chunk 0)
  with (accumulate mul add fuel 0 chunk (to_short 0)).
rewrite (accumulate_sum (Z.to_nat chunk)) by lia. done.
Qed.

(** [j] more turns of the driver's loop. *)
Lemma drive_turns (j fuel : nat) (total chunk acc done : Z) :
  0 < chunk -> chunk * mul + add <= 2147483647 ->
  0 <= done -> done + Z.of_nat j * chunk <= 2147483647 ->
  total <= done + Z.of_nat j * chunk ->
  (j <> O -> done + (Z.of_nat j - 1) * chunk < total) ->
  (Z.to_nat chunk + j <= fuel)%nat ->
  drive mul add fuel total chunk (to_short acc) done =
    Done (to_short (acc + Z.of_nat j *
                          to_short (sum_from term 0 (Z.to_nat chunk)))).
Proof using Hmul Hadd.
intros Hc Hlm. revert fuel acc done.
induction j as [|j IH]; intros fuel acc done Hd Hmax Hge Hlt Hf.
- destruct fuel; cbn [drive];
    (destruct (Z.ltb_spec done total) as [Hcontra|_]; [lia|]);
    f_equal; f_equal; lia.
- destruct fuel as [|fuel]; [lia|]. cbn [drive].
  destruct (Z.ltb_spec done total) as [_|Hcontra]; [|specialize (Hlt ltac:(done)); nia].
  rewrite accumulate_chunk by nia.
  rewrite int_ok_true by nia.
  rewrite to_short_add_l, IH; [f_equal; f_equal; lia|lia|nia|nia| |lia].
  intros Hj. specialize (Hlt ltac:(done)). nia.
Qed.

End AccumulatorFacts.

(** X25. The accumulator recursion ([recursive_chunk], [deep_recurse]; [mul]
    and [add] are the two constants of the file).  Called with
    [0 <= depth <= limit], with [limit * mul + add] within [int], it returns
    after [limit - depth] steps the accumulator plus the exact sum of
    [(d * mul + add) mod 32767] over [depth <= d < limit], reduced to 16
    bits. *)
Theorem accumulate_returns (mul add : Z) (fuel : nat) (depth limit acc : Z) :
  0 <= mul -> 0 <= add ->
  0 <= depth <= limit -> limit <= 2147483647 ->
  limit * mul + add <= 2147483647 ->
  -32768 <= acc <= 32767 ->
  (Z.to_nat (limit - depth) <= fuel)%nat ->
  accumulate mul add fuel depth limit acc =
    Done (to_short (acc + sum_from (fun d => (d * mul + add) mod 32767) depth
                                   (Z.to_nat (limit - depth)))).
Proof.
  intros Hmul Hadd Hd Hli Hlm Hacc Hf.
  rewrite <- (to_short_small acc Hacc) at 1.
  apply accumulate_sum; try done; lia.
Qed.

Lemma accumulate_returns_witness :
  Rec20k.recursive_chunk 1000 0 1000 0 =
    Done (to_short (0 + sum_from (fun d => (d * 3 + 1) mod 32767) 0
                                 (Z.to_nat (1000 - 0)))) /\
  Deep4k.deep_recurse 4000 0 4000 0 =
    Done (to_short (0 + sum_from (fun d => (d * 7 + 3) mod 32767) 0
                                 (Z.to_nat (4000 - 0)))).
Proof.
  split.
  - apply (accumulate_returns 3 1 1000 0 1000 0); lia.
  - apply (accumulate_returns 7 3 4000 0 4000 0); lia.
Defined.

(** X26. Called with [depth] already past [limit], the accumulator
    recursion cannot return within defined behaviour: the test
    [depth == limit] fails at every call and [depth] only grows, so no value
    is returned before a signed [int] overflow is executed, and one is
    executed after at most [INT_MAX - depth + 1] calls.  What a build does
    after the overflow (one that wraps around goes on counting and can
    return in the end) is outside this model. *)
Theorem accumulate_past_limit_overflows (mul add : Z) (fuel : nat)
    (depth limit acc : Z) :
  limit < depth -> depth <= 2147483647 ->
  (accumulate mul add fuel depth limit acc = OutOfFuel \/
   accumulate mul add fuel depth limit acc = Undefined) /\
  ((Z.to_nat (2147483647 - depth) < fuel)%nat ->
   accumulate mul add fuel depth limit acc = Undefined).
Proof.
  intros Hlt Hmax. split.
  - revert depth acc Hlt Hmax.
    induction fuel as [|fuel IH]; intros depth acc Hlt Hmax; cbn [accumulate];
      destruct (Z.eqb_spec depth limit) as [E|_]; try lia; [by left|].
    destruct (step_term mul add depth); [|by right].
    destruct (int_ok (depth + 1)) eqn:Hok; [|by right].
    apply IH; [lia|].
    unfold int_ok in Hok. apply andb_true_iff in Hok as [_ Hok]. lia.
  - revert depth acc Hlt Hmax.
    induction fuel as [|fuel IH]; intros depth acc Hlt Hmax Hf; [lia|].
    cbn [accumulate].
    destruct (Z.eqb_spec depth limit) as [E|_]; [lia|].
    destruct (step_term mul add depth); [|done].
    destruct (int_ok (depth + 1)) eqn:Hok; [|done].
    unfold int_ok in Hok. apply andb_true_iff in Hok as [_ Hok].
    apply IH; lia.
Qed.

Lemma accumulate_past_limit_overflows_witness :
  3 < 5 /\ 5 <= 2147483647 /\
  (Rec20k.recursive_chunk 50 5 3 0 = OutOfFuel \/
   Rec20k.recursive_chunk 50 5 3 0 = Undefined) /\
  Rec20k.recursive_chunk 4 2147483645 3 0 = Undefined.
Proof.
  assert (H : 3 < 5) by lia. assert (H' : 5 <= 2147483647) by lia.
  split; [exact H|]. split; [exact H'|]. split.
  - exact (proj1 (accumulate_past_limit_overflows 3 1 50 5 3 0 H H')).
  - apply (accumulate_past_limit_overflows 3 1 4 2147483645 3 0); lia.
Defined.

(** X27. The chunking driver ([recursive_driver], [deep_driver]) works in
    whole chunks.  With a positive chunk size it runs the recursion
    [k = ceil(total_steps / chunk)] times, each time from depth 0, and
    returns [k] times the checksum of one chunk, reduced to 16 bits: a total
    that is not a multiple of the chunk size is rounded up, and the result
    is not the checksum of the steps [0 .. total_steps). *)
Theorem drive_whole_chunks (mul add : Z) (fuel : nat) (total_steps chunk : Z) :
  0 <= mul -> 0 <= add ->
  0 < chunk -> 0 <= total_steps ->
  chunk * mul + add <= 2147483647 ->
  let k := (total_steps + chunk - 1) / chunk in
  k * chunk <= 2147483647 ->
  (Z.to_nat (chunk + k) <= fuel)%nat ->
  drive mul add fuel total_steps chunk 0 0 =
    Done (to_short
            (k * to_short (sum_from (fun d => (d * mul + add) mod 32767) 0
                                    (Z.to_nat chunk)))).
Proof.
  intros Hmul Hadd Hc Ht Hlm k Hk Hf.
  assert (Hk0 : 0 <= k) by (apply Z.div_pos; lia).
  assert (Hdiv : chunk * k <= total_steps + chunk - 1 < chunk * k + chunk).
  { pose proof (Z.mul_div_le (total_steps + chunk - 1) chunk Hc).
    pose proof (Z.mul_succ_div_gt (total_steps + chunk - 1) chunk Hc).
    fold k in H, H0. lia. }
  change (drive mul add fuel total_steps chunk 0 0)
    with (drive mul add fuel total_steps chunk (to_short 0) 0).
  rewrite (drive_turns mul add Hmul Hadd (Z.to_nat k));
    rewrite ?Z2Nat.id by lia; try done; try lia.
Qed.

Lemma drive_whole_chunks_witness :
  Rec20k.recursive_driver 1100 20500 1000 =
    Done (to_short (21 * to_short (sum_from (fun d => (d * 3 + 1) mod 32767) 0
                                            (Z.to_nat 1000)))).
Proof.
  apply (drive_whole_chunks 3 1 1100 20500 1000); try lia.
  - vm_compute. discriminate.
  - vm_compute. lia.
Defined.

(** X28. With a chunk size of 0 and a positive total the driver's loop
    never ends: every turn runs an empty recursion, which returns 0 at once,
    and adds 0 to the loop counter, so however many turns it is granted the
    loop is still running. *)
Theorem drive_zero_chunk_never_returns (mul add : Z) (fuel : nat)
    (total_steps : Z) :
  0 < total_steps ->
  drive mul add fuel total_steps 0 0 0 = OutOfFuel.
Proof.
  intros Ht.
  assert (Hgen : forall acc, drive mul add fuel total_steps 0 acc 0 = OutOfFuel).
  { induction fuel as [|fuel' IH]; intros acc; cbn [drive];
      (destruct (Z.ltb_spec 0 total_steps) as [_|Hcontra]; [|lia]);
      [reflexivity|].
    cbn [accumulate Z.eqb Z.add int_ok Z.leb Z.compare andb]. apply IH. }
  apply Hgen.
Qed.

Lemma drive_zero_chunk_never_returns_witness :
  0 < 20 /\ Deep16k.deep_driver 50 20 0 = OutOfFuel.
Proof.
  assert (Ht : 0 < 20) by lia.
  split; [exact Ht|].
  exact (drive_zero_chunk_never_returns 11 7 50 20 Ht).
Defined.
